(** * discordcore: boot-time reconciliation and service lifecycle of [cmd/discordcore/main.go]

    A shallow embedding of the part of [main] that starts once the SQLite
    store has been initialised (main.go:113) and runs until the deferred
    shutdown function has finished (main.go:233).

    [main] is one long sequence of calls into collaborators (the store, the
    Discord session, the configuration manager, the service manager).  The
    embedding keeps that shape: a small state monad threads a [World] made of
    the chronological trace of calls performed so far and the number of times
    the wall clock has been read; what the collaborators answer is given by an
    environment record [Env].  The constructors called between main.go:172
    and main.go:176 (the automod service, its router and its notification adapters)
    only build values and leave no event. *)

From Stdlib Require Import ZArith List String Bool Lia Permutation.
Import ListNotations.

Set Implicit Arguments.
Set Warnings "-register-all".

Local Open Scope string_scope.
Local Open Scope list_scope.

(** ** Go's [time] package, as far as [main] uses it *)

Module GoTime.

(** An instant, in nanoseconds since the epoch. *)
Definition Time : Type := Z.

(** [time.Duration] is a signed 64-bit count of nanoseconds. *)
Definition Duration : Type := Z.

Definition Nanosecond : Duration := 1%Z.
Definition Second : Duration := (1000000000 * Nanosecond)%Z.
Definition Minute : Duration := (60 * Second)%Z.

Definition minDuration : Duration := (- 2 ^ 63)%Z.
Definition maxDuration : Duration := (2 ^ 63 - 1)%Z.

(** [t.Sub(u)]: the difference, saturated to the range of [Duration]. *)
Definition Sub (t u : Time) : Duration :=
  if (t - u >? maxDuration)%Z then maxDuration
  else if (t - u <? minDuration)%Z then minDuration
  else (t - u)%Z.

End GoTime.

Import GoTime.

(** Go's [error] values.  [main] only tests them against nil and prints
    them.  [ErrExternal] stands for an error of a collaborator outside the
    service manager; the other constructors are the service manager's own
    (section 7 of the specification). *)
Inductive error : Type :=
| ErrExternal (msg : string)
| DuplicateIdentity (identity : string)
| UnknownDependency (serviceID missingID : string)
| CyclicDependency (path : list string)
| StartFailure (identity : string) (cause : error)
| StopFailure (identity : string) (cause : error)
| ShutdownTimeout (identity : string)
| Aggregate (failures : list error).

(** ** Data of the collaborators *)

(** [discordgo.User]: the two fields [main] reads. *)
Record User : Type := mkUser { ID : string; Avatar : string }.

(** [discordgo.Member]: [User] is a pointer and may be nil. *)
Record Member : Type := mkMember { MemberUser : option User }.

(** [files.GuildConfig] and [files.BotConfig]: the fields [main] reads. *)
Record GuildConfig : Type := mkGuildConfig { GuildID : string }.
Record BotConfig : Type := mkBotConfig { Guilds : list GuildConfig }.

(** ** Log lines

    One constructor per call of [log.Info], [log.Error] and [log.Errorf]
    between main.go:113 and main.go:241, with the values it formats. *)
Inductive Level : Type := LevelInfo | LevelError.

Inductive LogMsg : Type :=
| MsgDowntimeDetected                                   (* main.go:117 *)
| MsgListMembersFailed (guildID : string) (err : error) (* main.go:122 *)
| MsgRefreshCompleted                                   (* main.go:137 *)
| MsgNoDowntime                                         (* main.go:139 *)
| MsgHeartbeatReadFailed (err : error)                  (* main.go:142 *)
| MsgCreatingWrappers                                   (* main.go:151 *)
| MsgCreateMonitoringFailed (err : error)               (* main.go:156 *)
| MsgCreateMonitoringFailedShort                        (* main.go:157 *)
| MsgRegisterMonitoringFailed (err : error)             (* main.go:189 *)
| MsgRegisterMonitoringFailedShort                      (* main.go:190 *)
| MsgRegisterAutomodFailed (err : error)                (* main.go:195 *)
| MsgRegisterAutomodFailedShort                         (* main.go:196 *)
| MsgStartingAll                                        (* main.go:201 *)
| MsgStartFailed (err : error)                          (* main.go:203 *)
| MsgStartFailedShort                                   (* main.go:204 *)
| MsgSetupCommandsFailed (err : error)                  (* main.go:211 *)
| MsgSetupCommandsFailedShort                           (* main.go:212 *)
| MsgShuttingDown                                       (* main.go:222 *)
| MsgStopFailed (err : error)                           (* main.go:227 *)
| MsgSyncCompleted                                      (* main.go:236 *)
| MsgInitialized                                        (* main.go:237 *)
| MsgRunning                                            (* main.go:238 *)
| MsgStoppingBot.                                       (* main.go:241 *)

(** ** Observable calls *)

Inductive Event : Type :=
| EvLog (lvl : Level) (msg : LogMsg)
| EvGetHeartbeat                                          (* store.GetHeartbeat() *)
| EvGuildMembers (guildID after : string) (limit : Z)     (* discordSession.GuildMembers *)
| EvUpsertAvatar (guildID userID avatarHash : string) (at_ : Time)
| EvSetHeartbeat (t : Time)                               (* store.SetHeartbeat(t) *)
| EvNewMonitoringService
| EvStartHook (name : string)                             (* a wrapper's start function is called *)
| EvStopHook (name : string)                              (* a wrapper's stop function is called *)
| EvNotify (text : string)                                (* a service sends a notification *)
| EvSetupCommands
| EvRegisterAdminCommands
| EvWaitForInterrupt
| EvStoreClose.                                           (* store.Close() *)

(** ** Services

    A hook is a closure [func() error].  [main] has each hook called at most
    once, so a hook is described by what that call does: the notifications
    the service sends while the hook runs, how long the hook takes, and the
    error it returns; or that it never returns. *)
Inductive HookResult : Type :=
| Returned (notifications : list string) (took : Duration) (err : option error)
| NeverReturns (notifications : list string).

Inductive ServiceType : Type := TypeMonitoring | TypeAutomod.

Inductive ServicePriority : Type := PriorityHigh | PriorityNormal | PriorityLow.

(** [service.NewServiceWrapper]: the seven arguments of main.go:161 and
    main.go:177, in their order. *)
Record ServiceWrapper : Type := NewServiceWrapper {
  name         : string;
  serviceType  : ServiceType;
  priority     : ServicePriority;
  dependencies : list string;
  startFunc    : HookResult;
  stopFunc     : HookResult;
  healthFunc   : bool
}.

(** ** The environment: what the collaborators answer *)

Record Env : Type := mkEnv {
  (** [store == nil] (main.go:114, main.go:229). *)
  store_is_nil : bool;
  (** [store.GetHeartbeat()]: [(lastHB, ok, err)]. *)
  GetHeartbeat : Time * bool * option error;
  (** [store.SetHeartbeat(t)]. *)
  SetHeartbeat : Time -> option error;
  (** [store.UpsertAvatar(guildID, userID, avatarHash, at)]:
      [(previous, changed, err)]. *)
  UpsertAvatar : string -> string -> string -> Time -> string * bool * option error;
  (** [store.Close()]. *)
  Close : option error;
  (** [configManager.Config()]; [None] is the nil configuration. *)
  Config : option BotConfig;
  (** [discordSession.GuildMembers(guildID, after, limit)]: a slice of
      member pointers, any of which may be nil, or an error. *)
  GuildMembers : string -> string -> Z -> list (option Member) + error;
  (** [time.Now()] at its first, second, third ... call. *)
  clock : nat -> Time;
  (** [logging.NewMonitoringService(...)]: the error, if any. *)
  NewMonitoringService : option error;
  (** [monitoringService.Start()] and [monitoringService.Stop()]. *)
  monitoringService_Start : HookResult;
  monitoringService_Stop : HookResult;
  (** [automodService.Start()] and [automodService.Stop()] return nothing:
      the notifications sent and the time taken, or [None] when the call
      never returns. *)
  automodService_Start : option (list string * Duration);
  automodService_Stop : option (list string * Duration);
  (** [commandHandler.SetupCommands()]. *)
  SetupCommands : option error;
  (** The deadline that [serviceManager.StopAll()] applies.  The call at
      main.go:226 passes none: it is the manager's own, set inside
      [pkg/service], which is not among the sources. *)
  StopAll_deadline : Duration
}.

(** ** The monad of [main] *)

Record World : Type := mkWorld {
  trace : list Event;   (* calls performed so far, oldest first *)
  ticks : nat           (* number of calls of [time.Now()] so far *)
}.

(** How a computation ends: it returns, the process exits ([os.Exit]), or
    the computation blocks forever in a call that never returns. *)
Inductive Res (A : Type) : Type :=
| Ret (a : A)
| Exit (code : Z)
| Hang.

Arguments Ret {A} a.
Arguments Exit {A} code.
Arguments Hang {A}.

Definition M (A : Type) : Type := World -> Res A * World.

Definition ret {A : Type} (a : A) : M A := fun w => (Ret a, w).

Definition bind {A B : Type} (m : M A) (k : A -> M B) : M B :=
  fun w =>
    match m w with
    | (Ret a, w') => k a w'
    | (Exit c, w') => (Exit c, w')
    | (Hang, w') => (Hang, w')
    end.

Declare Scope main_scope.
Delimit Scope main_scope with main.
Notation "x <- m ;; k" := (bind m (fun x => k))
  (at level 61, m at next level, right associativity) : main_scope.
Notation "m ;; k" := (bind m (fun _ => k))
  (at level 61, right associativity) : main_scope.
Local Open Scope main_scope.

Definition emit (e : Event) : M unit :=
  fun w => (Ret tt, {| trace := trace w ++ [e]; ticks := ticks w |}).

Definition os_Exit {A : Type} (code : Z) : M A := fun w => (Exit code, w).

Definition block_forever {A : Type} : M A := fun w => (Hang, w).

(** [for _, x := range l { body }] *)
Fixpoint for_range {A : Type} (l : list A) (body : A -> M unit) : M unit :=
  match l with
  | [] => ret tt
  | x :: rest => body x ;; for_range rest body
  end.

Definition log_Info (msg : LogMsg) : M unit := emit (EvLog LevelInfo msg).
Definition log_Error (msg : LogMsg) : M unit := emit (EvLog LevelError msg).

Section Reconcile.

Variable env : Env.

(** [time.Now()] *)
Definition time_Now : M Time :=
  fun w => (Ret (clock env (ticks w)), {| trace := trace w; ticks := S (ticks w) |}).

(** [time.Since(t)] is [time.Now().Sub(t)]. *)
Definition time_Since (t : Time) : M Duration :=
  now <- time_Now ;; ret (Sub now t).

Definition store_GetHeartbeat : M (Time * bool * option error) :=
  emit EvGetHeartbeat ;; ret (GetHeartbeat env).

Definition store_SetHeartbeat (t : Time) : M (option error) :=
  emit (EvSetHeartbeat t) ;; ret (SetHeartbeat env t).

Definition store_UpsertAvatar (guildID userID avatarHash : string) (at_ : Time)
  : M (string * bool * option error) :=
  emit (EvUpsertAvatar guildID userID avatarHash at_) ;;
  ret (UpsertAvatar env guildID userID avatarHash at_).

Definition discordSession_GuildMembers (guildID after : string) (limit : Z)
  : M (list (option Member) + error) :=
  emit (EvGuildMembers guildID after limit) ;;
  ret (GuildMembers env guildID after limit).

(** Body of the inner loop, main.go:126-133. *)
Definition refresh_member (guildID : string) (member : option Member) : M unit :=
  match member with
  | None => ret tt                                   (* member == nil: continue *)
  | Some m =>
      match MemberUser m with
      | None => ret tt                               (* member.User == nil: continue *)
      | Some user =>
          let avatarHash := Avatar user in
          let avatarHash := if String.eqb avatarHash "" then "default" else avatarHash in
          at_ <- time_Now ;;
          _ <- store_UpsertAvatar guildID (ID user) avatarHash at_ ;;
          ret tt
      end
  end.

(** Body of the outer loop, main.go:120-134. *)
Definition refresh_guild (gcfg : GuildConfig) : M unit :=
  r <- discordSession_GuildMembers (GuildID gcfg) "" 1000 ;;
  match r with
  | inr err =>
      log_Error (MsgListMembersFailed (GuildID gcfg) err)   (* continue *)
  | inl members =>
      for_range members (refresh_member (GuildID gcfg))
  end.

(** main.go:117-137: the silent avatar refresh. *)
Definition silent_refresh : M unit :=
  log_Info MsgDowntimeDetected ;;
  match Config env with
  | Some cfg => for_range (Guilds cfg) refresh_guild
  | None => ret tt
  end ;;
  log_Info MsgRefreshCompleted.

(** [!ok || time.Since(lastHB) > 30*time.Minute], evaluated left to right:
    the clock is read only when [ok] holds. *)
Definition downtime_detected (lastHB : Time) (ok : bool) : M bool :=
  if negb ok then ret true
  else d <- time_Since lastHB ;; ret (d >? 30 * Minute)%Z.

(** main.go:114-145. *)
Definition reconcile : M unit :=
  if store_is_nil env then ret tt
  else
    hb <- store_GetHeartbeat ;;
    (let '(lastHB, ok, err) := hb in
     match err with
     | None =>
         stale <- downtime_detected lastHB ok ;;
         if stale then silent_refresh
         else log_Info MsgNoDowntime
     | Some err => log_Error (MsgHeartbeatReadFailed err)
     end) ;;
    now <- time_Now ;;
    _ <- store_SetHeartbeat now ;;
    ret tt.

End Reconcile.

(** ** The service manager

    Package [pkg/service] is not among the sources; only its use by [main] is.
    The definitions of this part follow sections 3, 4.2, 4.3, 4.4 and 5 of
    the specification. *)

(** Modelled from the spec: the run states of a [ServiceRecord] (section 3);
    the type is declared in [pkg/service]. *)
Inductive ServiceState : Type :=
| StateRegistered | StateStarting | StateRunning
| StateStopping | StateStopped | StateFailed.

(** Modelled from the spec: the runtime companion of a descriptor
    (section 3); the type is declared in [pkg/service]. *)
Record ServiceRecord : Type := mkServiceRecord {
  descriptor : ServiceWrapper;
  state      : ServiceState;
  lastError  : option error
}.

(** Modelled from the spec: the orchestrator owns one record per registered
    identity and remembers the realized start order (sections 3 and 4.4);
    [service.ServiceManager] is declared in [pkg/service]. *)
Record ServiceManager : Type := mkServiceManager {
  services   : list ServiceRecord;     (* in registration order *)
  startOrder : list ServiceWrapper     (* the realized start order *)
}.

(** Modelled from the spec: [service.NewServiceManager], a manager with no
    service registered. *)
Definition NewServiceManager : ServiceManager :=
  {| services := []; startOrder := [] |}.

Definition has_name (id : string) (d : ServiceWrapper) : bool :=
  String.eqb (name d) id.

(** Modelled from the spec: [ServiceManager.Register] (section 4.2), which
    fails with [DuplicateIdentity] when the identity exists and does not look
    at the dependencies. *)
Definition Register (sm : ServiceManager) (d : ServiceWrapper) : ServiceManager + error :=
  if existsb (has_name (name d)) (map descriptor (services sm))
  then inr (DuplicateIdentity (name d))
  else inl {| services := services sm ++ [mkServiceRecord d StateRegistered None];
              startOrder := startOrder sm |}.

Definition set_state (id : string) (st : ServiceState) (e : option error)
    (rs : list ServiceRecord) : list ServiceRecord :=
  map (fun r => if has_name id (descriptor r)
                then mkServiceRecord (descriptor r) st e else r) rs.

(** Modelled from the spec: step 1 of [StartAll] (section 4.3), the first
    dependency that names no registered service. *)
Fixpoint first_unknown_dependency (all ds : list ServiceWrapper) : option (string * string) :=
  match ds with
  | [] => None
  | d :: rest =>
      match find (fun dep => negb (existsb (has_name dep) all)) (dependencies d) with
      | Some missing => Some (name d, missing)
      | None => first_unknown_dependency all rest
      end
  end.

Definition priority_rank (p : ServicePriority) : nat :=
  match p with PriorityHigh => 0 | PriorityNormal => 1 | PriorityLow => 2 end.

(** Every dependency of [d] is among the services placed so far. *)
Definition is_ready (placed : list ServiceWrapper) (d : ServiceWrapper) : bool :=
  forallb (fun dep => existsb (has_name dep) placed) (dependencies d).

(** Modelled from the spec: step 3 of [StartAll] (section 4.3).  Among the
    candidates (in registration order) whose dependencies are all placed,
    the one of the best priority, and the earliest registered among those. *)
Fixpoint pick_next (placed candidates : list ServiceWrapper) : option ServiceWrapper :=
  match candidates with
  | [] => None
  | d :: rest =>
      match pick_next placed rest with
      | None => if is_ready placed d then Some d else None
      | Some best =>
          if is_ready placed d
             && (priority_rank (priority d) <=? priority_rank (priority best))%nat
          then Some d else Some best
      end
  end.

(** Modelled from the spec: steps 2 and 3 of [StartAll] (section 4.3).  One
    service is placed per round; a round in which no remaining service is
    ready means that the remaining ones depend on each other. *)
Fixpoint resolve_order (rounds : nat) (placed remaining : list ServiceWrapper)
    : list ServiceWrapper + error :=
  match remaining with
  | [] => inl placed
  | _ :: _ =>
      match rounds with
      | O => inr (CyclicDependency (map name remaining))
      | S rounds' =>
          match pick_next placed remaining with
          | None => inr (CyclicDependency (map name remaining))
          | Some d =>
              resolve_order rounds' (placed ++ [d])
                (filter (fun d' => negb (has_name (name d) d')) remaining)
          end
      end
  end.

Definition notify_all (notifications : list string) : M unit :=
  for_range notifications (fun text => emit (EvNotify text)).

(** Modelled from the spec: how the manager calls a hook.  Hooks execute
    synchronously on the orchestrating thread (section 5): the caller gets
    the time taken and the error once the hook returns, and waits forever if
    it does not. *)
Definition call_hook (ev : Event) (h : HookResult) : M (Duration * option error) :=
  emit ev ;;
  match h with
  | Returned notifications took err => notify_all notifications ;; ret (took, err)
  | NeverReturns notifications => notify_all notifications ;; block_forever
  end.

(** Modelled from the spec: steps 4 and 5 of [StartAll] (section 4.3). *)
Fixpoint start_in_order (order : list ServiceWrapper) (sm : ServiceManager)
    : M (ServiceManager * option error) :=
  match order with
  | [] => ret (sm, None)
  | d :: rest =>
      r <- call_hook (EvStartHook (name d)) (startFunc d) ;;
      match snd r with
      | Some cause =>
          ret ({| services := set_state (name d) StateFailed (Some cause) (services sm);
                  startOrder := startOrder sm |},
               Some (StartFailure (name d) cause))
      | None =>
          start_in_order rest
            {| services := set_state (name d) StateRunning None (services sm);
               startOrder := startOrder sm ++ [d] |}
      end
  end.

(** Modelled from the spec: [ServiceManager.StartAll] (section 4.3). *)
Definition StartAll (sm : ServiceManager) : M (ServiceManager * option error) :=
  let ds := map descriptor (services sm) in
  match first_unknown_dependency ds ds with
  | Some (serviceID, missingID) => ret (sm, Some (UnknownDependency serviceID missingID))
  | None =>
      match resolve_order (List.length ds) [] ds with
      | inr e => ret (sm, Some e)
      | inl order => start_in_order order sm
      end
  end.

(** Modelled from the spec: the stop sequence of [StopAll] (section 4.4).
    [remaining] is what is left of the deadline.  The stop hooks are called
    one after the other; a hook that has not returned when the budget is
    used up is left behind and recorded as [ShutdownTimeout], and the
    sequence goes on with the next service.  Failures are collected, and
    none of them ends the sequence. *)
Fixpoint stop_in_order (order : list ServiceWrapper) (remaining : Duration)
    (rs : list ServiceRecord) (failures : list error)
    : M (list ServiceRecord * list error) :=
  match order with
  | [] => ret (rs, failures)
  | d :: rest =>
      emit (EvStopHook (name d)) ;;
      match stopFunc d with
      | Returned notifications took err =>
          notify_all notifications ;;
          if (took <=? remaining)%Z then
            match err with
            | Some cause =>
                stop_in_order rest (remaining - took)%Z
                  (set_state (name d) StateFailed (Some cause) rs)
                  (failures ++ [StopFailure (name d) cause])
            | None =>
                stop_in_order rest (remaining - took)%Z
                  (set_state (name d) StateStopped None rs) failures
            end
          else
            stop_in_order rest 0%Z
              (set_state (name d) StateFailed (Some (ShutdownTimeout (name d))) rs)
              (failures ++ [ShutdownTimeout (name d)])
      | NeverReturns notifications =>
          notify_all notifications ;;
          stop_in_order rest 0%Z
            (set_state (name d) StateFailed (Some (ShutdownTimeout (name d))) rs)
            (failures ++ [ShutdownTimeout (name d)])
      end
  end.

(** Modelled from the spec: [ServiceManager.StopAll] (section 4.4).  The
    stop order is the reverse of the realized start order, the stop sequence
    runs within [deadline], and the failures are collected into one error. *)
Definition StopAll (deadline : Duration) (sm : ServiceManager)
    : M (ServiceManager * option error) :=
  r <- stop_in_order (rev (startOrder sm)) deadline (services sm) [] ;;
  ret ({| services := fst r; startOrder := startOrder sm |},
       match snd r with
       | [] => None
       | _ :: _ => Some (Aggregate (snd r))
       end).

(** ** [main], from main.go:113 on *)

(** [context.WithTimeout(context.Background(), d)]: the context and what
    [main] can ask of it. *)
Record Context : Type := mkContext { timeout : Duration }.

Definition context_WithTimeout (d : Duration) : Context := {| timeout := d |}.

Section Main.

Variable env : Env.

Definition logging_NewMonitoringService : M (option error) :=
  emit EvNewMonitoringService ;; ret (NewMonitoringService env).

Definition commandHandler_SetupCommands : M (option error) :=
  emit EvSetupCommands ;; ret (SetupCommands env).

Definition store_Close : M (option error) :=
  emit EvStoreClose ;; ret (Close env).

(** main.go:161-169. *)
Definition monitoringWrapper : ServiceWrapper :=
  NewServiceWrapper "monitoring" TypeMonitoring PriorityHigh []
    (monitoringService_Start env)      (* func() error { return monitoringService.Start() } *)
    (monitoringService_Stop env)       (* func() error { return monitoringService.Stop() } *)
    true.

(** [func() error { automodService.Start(); return nil }] and its
    counterpart for [Stop] (main.go:182-183). *)
Definition automod_hook (call : option (list string * Duration)) : HookResult :=
  match call with
  | Some (notifications, took) => Returned notifications took None
  | None => NeverReturns []
  end.

(** main.go:177-185. *)
Definition automodWrapper : ServiceWrapper :=
  NewServiceWrapper "automod" TypeAutomod PriorityNormal []
    (automod_hook (automodService_Start env))
    (automod_hook (automodService_Stop env))
    true.

(** The deferred function, main.go:221-233.  [shutdownTimeout] is the
    duration given to [context.WithTimeout]. *)
Definition shutdown_with (shutdownTimeout : Duration) (serviceManager : ServiceManager)
    : M unit :=
  log_Info MsgShuttingDown ;;
  let shutdownCtx := context_WithTimeout shutdownTimeout in
  r <- StopAll (StopAll_deadline env) serviceManager ;;   (* serviceManager.StopAll() *)
  match snd r with
  | Some err => log_Error (MsgStopFailed err)
  | None => ret tt
  end ;;
  (if store_is_nil env then ret tt
   else _ <- store_Close ;; ret tt) ;;
  let _ := shutdownCtx in                             (* _ = shutdownCtx *)
  ret tt.

Definition shutdown : ServiceManager -> M unit := shutdown_with (30 * Second)%Z.

(** main.go:147-241, and the deferred function when [main] returns. *)
Definition run_services : M unit :=
  let serviceManager := NewServiceManager in
  log_Info MsgCreatingWrappers ;;
  r <- logging_NewMonitoringService ;;
  match r with
  | Some err =>
      log_Error (MsgCreateMonitoringFailed err) ;;
      log_Error MsgCreateMonitoringFailedShort ;;
      os_Exit 1
  | None =>
      match Register serviceManager monitoringWrapper with
      | inr err =>
          log_Error (MsgRegisterMonitoringFailed err) ;;
          log_Error MsgRegisterMonitoringFailedShort ;;
          os_Exit 1
      | inl serviceManager =>
          match Register serviceManager automodWrapper with
          | inr err =>
              log_Error (MsgRegisterAutomodFailed err) ;;
              log_Error MsgRegisterAutomodFailedShort ;;
              os_Exit 1
          | inl serviceManager =>
              log_Info MsgStartingAll ;;
              started <- StartAll serviceManager ;;
              match snd started with
              | Some err =>
                  log_Error (MsgStartFailed err) ;;
                  log_Error MsgStartFailedShort ;;
                  os_Exit 1
              | None =>
                  let serviceManager := fst started in
                  r <- commandHandler_SetupCommands ;;
                  match r with
                  | Some err =>
                      log_Error (MsgSetupCommandsFailed err) ;;
                      log_Error MsgSetupCommandsFailedShort ;;
                      os_Exit 1
                  | None =>
                      emit EvRegisterAdminCommands ;;
                      log_Info MsgSyncCompleted ;;
                      log_Info MsgInitialized ;;
                      log_Info MsgRunning ;;
                      emit EvWaitForInterrupt ;;
                      log_Info MsgStoppingBot ;;
                      shutdown serviceManager
                  end
              end
          end
      end
  end.

Definition main : M unit :=
  reconcile env ;;
  run_services.

End Main.

(** ** What the refresh pass does, as lists

    The same pass written as pure functions over the configuration: the
    records it upserts and the calls it makes, in order.  The lemmas of the
    next part show that [silent_refresh] performs exactly these calls. *)

(** The value stored for a user: the avatar hash, or ["default"] when the
    hash is empty (main.go:129-132). *)
Definition avatar_value (user : User) : string :=
  if String.eqb (Avatar user) "" then "default" else Avatar user.

(** The record upserted for one entry of the member slice: none for a nil
    member or a member without user. *)
Definition member_targets (guildID : string) (member : option Member)
    : list (string * string * string) :=
  match member with
  | Some m =>
      match MemberUser m with
      | Some user => [(guildID, ID user, avatar_value user)]
      | None => []
      end
  | None => []
  end.

Definition guild_targets (env : Env) (gcfg : GuildConfig) : list (string * string * string) :=
  match GuildMembers env (GuildID gcfg) "" 1000 with
  | inl members => flat_map (member_targets (GuildID gcfg)) members
  | inr _ => []
  end.

(** The upserts of [targets], the first one stamped with the [n]-th reading
    of the clock, the next one with the following reading, and so on. *)
Fixpoint stamp (env : Env) (n : nat) (targets : list (string * string * string)) : list Event :=
  match targets with
  | [] => []
  | (guildID, userID, avatarHash) :: rest =>
      EvUpsertAvatar guildID userID avatarHash (clock env n) :: stamp env (S n) rest
  end.

Definition guild_events (env : Env) (n : nat) (gcfg : GuildConfig) : list Event :=
  EvGuildMembers (GuildID gcfg) "" 1000 ::
  match GuildMembers env (GuildID gcfg) "" 1000 with
  | inl _ => stamp env n (guild_targets env gcfg)
  | inr err => [EvLog LevelError (MsgListMembersFailed (GuildID gcfg) err)]
  end.

Fixpoint guilds_events (env : Env) (n : nat) (guilds : list GuildConfig) : list Event :=
  match guilds with
  | [] => []
  | gcfg :: rest =>
      guild_events env n gcfg
      ++ guilds_events env (n + List.length (guild_targets env gcfg)) rest
  end.

(** The guilds [main] iterates over: none when the configuration is nil. *)
Definition configured_guilds (env : Env) : list GuildConfig :=
  match Config env with
  | Some cfg => Guilds cfg
  | None => []
  end.

Definition refresh_targets (env : Env) : list (string * string * string) :=
  flat_map (guild_targets env) (configured_guilds env).

(** ** Reading a trace *)

(** The events a computation appends to the trace when run from [w]. *)
Definition emitted {A : Type} (m : M A) (w : World) : list Event :=
  skipn (List.length (trace w)) (trace (snd (m w))).

Definition is_upsert (e : Event) : bool :=
  match e with EvUpsertAvatar _ _ _ _ => true | _ => false end.

Definition is_fetch (e : Event) : bool :=
  match e with EvGuildMembers _ _ _ => true | _ => false end.

Definition is_heartbeat_write (e : Event) : bool :=
  match e with EvSetHeartbeat _ => true | _ => false end.

Definition is_start_hook (e : Event) : bool :=
  match e with EvStartHook _ => true | _ => false end.

Definition is_notification (e : Event) : bool :=
  match e with EvNotify _ => true | _ => false end.

Definition is_error_log (e : Event) : bool :=
  match e with EvLog LevelError _ => true | _ => false end.

Definition upserts (tr : list Event) : list Event := filter is_upsert tr.

(** The guilds whose members were requested, in order. *)
Definition fetched_guilds (tr : list Event) : list string :=
  flat_map (fun e => match e with EvGuildMembers g _ _ => [g] | _ => [] end) tr.

(** The refresh pass was entered: its opening line was logged (main.go:117). *)
Definition refresh_pass_taken (tr : list Event) : Prop :=
  In (EvLog LevelInfo MsgDowntimeDetected) tr.

(** The computation returns to its caller when run from [w]. *)
Definition returns {A : Type} (m : M A) (w : World) : Prop :=
  exists a, fst (m w) = Ret a.

(** ** Sample boots

    One configuration with three guilds: the first has four entries in its
    member slice (a member with an avatar, a nil entry, a member without
    user, a member with the empty avatar hash), listing the second fails,
    the third has one member.  The clock starts at minute 100 and advances
    by one second per reading. *)

Definition alice : User := mkUser "1001" "a3f9".
Definition bob : User := mkUser "1002" "".
Definition carol : User := mkUser "1003" "77c0".

Definition sample_GuildMembers (guildID after : string) (limit : Z)
    : list (option Member) + error :=
  if String.eqb guildID "g1" then
    inl [Some (mkMember (Some alice)); None; Some (mkMember None); Some (mkMember (Some bob))]
  else if String.eqb guildID "g2" then inr (ErrExternal "HTTP 403 Forbidden")
  else if String.eqb guildID "g3" then inl [Some (mkMember (Some carol))]
  else inl [].

Definition sample_clock (n : nat) : Time := (100 * Minute + Z.of_nat n * Second)%Z.

Definition sample_env (hb : Time * bool * option error) (setHeartbeat : option error)
    (monitoringStop : HookResult) : Env :=
  {| store_is_nil := false;
     GetHeartbeat := hb;
     SetHeartbeat := fun _ => setHeartbeat;
     UpsertAvatar := fun _ _ _ _ => ("", true, None);
     Close := None;
     Config := Some (mkBotConfig [mkGuildConfig "g1"; mkGuildConfig "g2"; mkGuildConfig "g3"]);
     GuildMembers := sample_GuildMembers;
     clock := sample_clock;
     NewMonitoringService := None;
     monitoringService_Start := Returned ["monitoring online"] Second None;
     monitoringService_Stop := monitoringStop;
     automodService_Start := Some ([], Second);
     automodService_Stop := Some ([], Second);
     SetupCommands := None;
     StopAll_deadline := (10 * Second)%Z |}.

Definition stops_cleanly : HookResult := Returned [] Second None.

(** Last heartbeat 60 minutes before the first clock reading. *)
Definition env_stale : Env := sample_env ((40 * Minute)%Z, true, None) None stops_cleanly.

(** Last heartbeat 20 minutes before the first clock reading. *)
Definition env_fresh : Env := sample_env ((80 * Minute)%Z, true, None) None stops_cleanly.

(** No heartbeat stored. *)
Definition env_absent : Env := sample_env (0%Z, false, None) None stops_cleanly.

(** Reading the heartbeat fails: no timestamp, not found, an error. *)
Definition env_read_error : Env :=
  sample_env (0%Z, false, Some (ErrExternal "database is locked")) None stops_cleanly.

(** Writing the heartbeat fails. *)
Definition env_write_error : Env :=
  sample_env ((80 * Minute)%Z, true, None) (Some (ErrExternal "disk full")) stops_cleanly.

Definition w0 : World := {| trace := []; ticks := 0 |}.

(** ** Vocabulary of the properties *)

(** How often the staleness test reads the clock: once when a heartbeat was
    read without error and found, not at all otherwise (main.go:115-116). *)
Definition staleness_test_readings (env : Env) : nat :=
  match GetHeartbeat env with
  | (_, true, None) => 1
  | _ => 0
  end.

(** The reading of the clock at which the refresh pass starts: the staleness
    test reads the clock once, and only when a heartbeat was found. *)
Definition pass_start (ok : bool) (w : World) : nat :=
  if ok then S (ticks w) else ticks w.

(** Every run of [reconcile] returns, and appends one of four sequences. *)
Inductive reconcile_shape (env : Env) : list Event -> Prop :=
| shape_nil_store :
    reconcile_shape env []
| shape_read_error (err : error) (t : Time) :
    reconcile_shape env
      [EvGetHeartbeat; EvLog LevelError (MsgHeartbeatReadFailed err); EvSetHeartbeat t]
| shape_skipped (t : Time) :
    reconcile_shape env [EvGetHeartbeat; EvLog LevelInfo MsgNoDowntime; EvSetHeartbeat t]
| shape_taken (n : nat) (t : Time) :
    reconcile_shape env
      ([EvGetHeartbeat; EvLog LevelInfo MsgDowntimeDetected]
       ++ guilds_events env n (configured_guilds env)
       ++ [EvLog LevelInfo MsgRefreshCompleted; EvSetHeartbeat t]).

(** The refresh pass as the specification words it: taken exactly when the
    last heartbeat is absent or strictly older than the threshold, and then
    upserting, for every member of every configured guild, the member's
    avatar value as it is. *)
Definition heartbeat_absent_or_stale (env : Env) (now : Time) : Prop :=
  let '(lastHB, ok, _) := GetHeartbeat env in
  ok = false \/ (Sub now lastHB > 30 * Minute)%Z.

Definition stated_member_targets (guildID : string) (member : option Member)
    : list (string * string * string) :=
  match member with
  | Some m =>
      match MemberUser m with
      | Some user => [(guildID, ID user, Avatar user)]
      | None => []
      end
  | None => []
  end.

Definition stated_targets (env : Env) : list (string * string * string) :=
  flat_map
    (fun gcfg =>
       match GuildMembers env (GuildID gcfg) "" 1000 with
       | inl members => flat_map (stated_member_targets (GuildID gcfg)) members
       | inr _ => []
       end)
    (configured_guilds env).

(** Key and value of every upsert of a trace. *)
Definition upsert_records (tr : list Event) : list (string * string * string) :=
  flat_map (fun e => match e with
                     | EvUpsertAvatar g u a _ => [(g, u, a)]
                     | _ => []
                     end) tr.

Definition reconciliation_as_stated (env : Env) (w : World) : Prop :=
  let evs := emitted (reconcile env) w in
  (refresh_pass_taken evs <-> heartbeat_absent_or_stale env (clock env (ticks w)))
  /\ (refresh_pass_taken evs -> upsert_records evs = stated_targets env).

(** The calls of the refresh pass, and those of [reconcile] around it. *)
Definition pass_event (e : Event) : bool :=
  match e with
  | EvLog _ _ | EvGuildMembers _ _ _ | EvUpsertAvatar _ _ _ _ => true
  | _ => false
  end.

Definition reconcile_event (e : Event) : bool :=
  match e with
  | EvGetHeartbeat | EvSetHeartbeat _ => true
  | _ => pass_event e
  end.

(** Run from any world, [m] leaves the trace so far in place and appends
    only events accepted by [p]. *)
Definition emits (p : Event -> bool) {A : Type} (m : M A) : Prop :=
  forall w, exists evs, trace (snd (m w)) = trace w ++ evs /\ forallb p evs = true.

(** Events of the service hooks. *)
Definition hook_event (e : Event) : bool :=
  match e with
  | EvStartHook _ | EvStopHook _ | EvNotify _ => true
  | _ => false
  end.

(** [p] accepts whatever the hooks do. *)
Definition accepts_hooks (p : Event -> bool) : Prop :=
  forall e, hook_event e = true -> p e = true.

(** What [main] does after [reconcile]: everything but the calls of the
    reconciliation. *)
Definition services_event (e : Event) : bool :=
  match e with
  | EvGetHeartbeat | EvGuildMembers _ _ _ | EvUpsertAvatar _ _ _ _ | EvSetHeartbeat _ => false
  | _ => true
  end.

(** The same environment with another answer of [store.SetHeartbeat]. *)
Definition with_SetHeartbeat (answer : Time -> option error) (env : Env) : Env :=
  {| store_is_nil := store_is_nil env;
     GetHeartbeat := GetHeartbeat env;
     SetHeartbeat := answer;
     UpsertAvatar := UpsertAvatar env;
     Close := Close env;
     Config := Config env;
     GuildMembers := GuildMembers env;
     clock := clock env;
     NewMonitoringService := NewMonitoringService env;
     monitoringService_Start := monitoringService_Start env;
     monitoringService_Stop := monitoringService_Stop env;
     automodService_Start := automodService_Start env;
     automodService_Stop := automodService_Stop env;
     SetupCommands := SetupCommands env;
     StopAll_deadline := StopAll_deadline env |}.

(** A failed heartbeat write is reported: when a write of the trace was
    answered with an error, the trace has an error line. *)
Definition heartbeat_failure_reported (env : Env) (tr : list Event) : Prop :=
  (exists t err, In (EvSetHeartbeat t) tr /\ SetHeartbeat env t = Some err) ->
  exists msg, In (EvLog LevelError msg) tr.

(** Events of the stop sequence: a stop hook is called, a service notifies. *)
Definition stop_sequence_event (e : Event) : bool :=
  match e with
  | EvStopHook _ | EvNotify _ => true
  | _ => false
  end.

Definition is_log (e : Event) : bool :=
  match e with EvLog _ _ => true | _ => false end.

(** The stop hook of [d] returns when called. *)
Definition stop_hook_returns (d : ServiceWrapper) : Prop :=
  exists notifications took err, stopFunc d = Returned notifications took err.

(** The manager of [main] once both services run. *)
Definition started_manager (env : Env) : ServiceManager :=
  {| services := [mkServiceRecord (monitoringWrapper env) StateRunning None;
                  mkServiceRecord (automodWrapper env) StateRunning None];
     startOrder := [monitoringWrapper env; automodWrapper env] |}.

(** Every service of [order] comes after the services it depends on. *)
Definition dependencies_first (order : list ServiceWrapper) : Prop :=
  forall l1 d l2, order = l1 ++ d :: l2 ->
  forall dep, In dep (dependencies d) -> In dep (map name l1).

(** [x] stands in [l] before an occurrence of [y]: with [l] the services in
    registration order, [x] was registered before [y]. *)
Inductive before : list ServiceWrapper -> ServiceWrapper -> ServiceWrapper -> Prop :=
| before_here : forall l x y, In y l -> before (x :: l) x y
| before_later : forall l z x y, before l x y -> before (z :: l) x y.

(** The ties of [order] are broken by priority, then by the registration
    order [ds]: whenever a service [d'] comes after [d] although all its
    dependencies stood before [d] (so that [d'] could have taken the place
    of [d]), [d] has the better priority, or the same priority and the
    earlier registration. *)
Definition priority_then_registration (ds order : list ServiceWrapper) : Prop :=
  forall l1 d l2, order = l1 ++ d :: l2 ->
  forall d', In d' l2 -> is_ready l1 d' = true ->
  priority_rank (priority d) < priority_rank (priority d')
  \/ (priority_rank (priority d) = priority_rank (priority d') /\ before ds d d').

(** The dependency graph of [ds] is acyclic and closed: every dependency
    names a service of [ds], and the services can be given levels such that
    each one lies above the services it depends on. *)
Definition acyclic_dependencies (ds : list ServiceWrapper) : Prop :=
  exists level : string -> nat,
    forall d dep, In d ds -> In dep (dependencies d) ->
    In dep (map name ds) /\ level dep < level (name d).

(** The services registered with a manager, in registration order. *)
Definition registered_services (sm : ServiceManager) : list ServiceWrapper :=
  map descriptor (services sm).

(** The start hook of [d] returns without error. *)
Definition start_hook_succeeds (d : ServiceWrapper) : Prop :=
  exists notifications took, startFunc d = Returned notifications took None.

(** The start hooks called when the services of [order] are started one
    after the other: the sequence ends with the first hook that fails or
    never returns. *)
Fixpoint hooks_called (order : list ServiceWrapper) : list string :=
  match order with
  | [] => []
  | d :: rest =>
      name d :: match startFunc d with
                | Returned _ _ None => hooks_called rest
                | _ => []
                end
  end.

(** The manager of [main] after the two calls of [Register]. *)
Definition registered_manager (env : Env) : ServiceManager :=
  {| services := [mkServiceRecord (monitoringWrapper env) StateRegistered None;
                  mkServiceRecord (automodWrapper env) StateRegistered None];
     startOrder := [] |}.

(** The calls of [StartAll] in [main]: the start hook of the monitoring
    service and what that service notifies; then, when that hook returned no
    error, the start hook of the automod service and what it notifies. *)
Definition automod_start_events (env : Env) : list Event :=
  EvStartHook "automod" ::
  match automodService_Start env with
  | Some (notifications, _) => map EvNotify notifications
  | None => []
  end.

Definition start_events (env : Env) : list Event :=
  EvStartHook "monitoring" ::
  match monitoringService_Start env with
  | Returned notifications _ None => map EvNotify notifications ++ automod_start_events env
  | Returned notifications _ (Some _) => map EvNotify notifications
  | NeverReturns notifications => map EvNotify notifications
  end.

(** The services whose start hook was called, in order. *)
Definition started_hooks (tr : list Event) : list string :=
  flat_map (fun e => match e with EvStartHook n => [n] | _ => [] end) tr.

Definition no_start_hook (e : Event) : bool := negb (is_start_hook e).

(** Run from any world, [m] leaves the trace so far in place and the start
    hooks it calls are those of [hooks], in this order. *)
Definition starts (hooks : list string) {A : Type} (m : M A) : Prop :=
  forall w, exists evs, trace (snd (m w)) = trace w ++ evs /\ started_hooks evs = hooks.

(** The start hooks called by a run of [main]: none when the monitoring
    service cannot be created; else that of the monitoring service and, when
    it returned without error, that of the automod service after it. *)
Definition main_start_hooks (env : Env) : list string :=
  match NewMonitoringService env with
  | Some _ => []
  | None =>
      "monitoring" :: match monitoringService_Start env with
                      | Returned _ _ None => ["automod"]
                      | _ => []
                      end
  end.

(** The example of section 8 of the specification, registered in the order
    Z, Y, X: X has no dependency, Y and Z depend on X, Y has the high and Z
    the normal priority. *)
Definition example_service (id : string) (p : ServicePriority) (deps : list string)
    : ServiceWrapper :=
  NewServiceWrapper id TypeMonitoring p deps (Returned [] 0%Z None) (Returned [] 0%Z None) true.

Definition service_X : ServiceWrapper := example_service "X" PriorityNormal [].
Definition service_Y : ServiceWrapper := example_service "Y" PriorityHigh ["X"].
Definition service_Z : ServiceWrapper := example_service "Z" PriorityNormal ["X"].

(** The levels of the example: X below Y and Z. *)
Definition example_level (id : string) : nat :=
  if String.eqb id "X" then 0 else 1.

(** ** The start of [main], main.go:33-111

    The steps that precede the reconciliation: logger, error handler, token,
    Discord session, directories and files, configuration, migration, store.
    The text of main.go:30-31 (what is done when loading the environment
    fails) is cut off in the source, so the model starts at main.go:33 with
    the token as loaded.  These steps have calls and log lines of their own,
    kept in a trace of their own. *)

(** [discordSession.State.User]: the two fields [main] prints and uses. *)
Record SessionUser : Type := mkSessionUser { Username : string; Discriminator : string }.

Inductive StartupMsg : Type :=
| MsgStartingBot                                        (* main.go:48 *)
| MsgTokenNotSet                                        (* main.go:52 *)
| MsgAuthenticating                                     (* main.go:59 *)
| MsgTokenRedacted                                      (* main.go:60 *)
| MsgAuthenticationFailed (err : error)                 (* main.go:65 *)
| MsgCreateSessionFailed (err : error)                  (* main.go:66 *)
| MsgAuthenticated (username discriminator : string)    (* main.go:69 *)
| MsgCacheDirsFailed (err : error)                      (* main.go:76 *)
| MsgCacheDirsFailedShort                               (* main.go:77 *)
| MsgConfigFilesFailed (err : error)                    (* main.go:83 *)
| MsgConfigFilesFailedShort                             (* main.go:84 *)
| MsgLoadSettingsFailed (err : error)                   (* main.go:92 *)
| MsgMigrationFailed (err : error)                      (* main.go:97 *)
| MsgStoreInitFailed (err : error)                      (* main.go:103 *)
| MsgStoreInitFailedShort                               (* main.go:104 *)
| MsgGuildsNotAccessible (err : error).                 (* main.go:110 *)

Inductive StartupEvent : Type :=
| SevSetupLogger                            (* log.SetupLogger() *)
| SevPrintf (err : error)                   (* fmt.Printf, main.go:34 *)
| SevInitializeGlobalErrorHandler           (* errutil.InitializeGlobalErrorHandler *)
| SevFprintln (err : error)                 (* fmt.Fprintln(os.Stderr, ...), main.go:40 *)
| SevLog (lvl : Level) (msg : StartupMsg)
| SevNewDiscordSession (token : string)     (* session.NewDiscordSession(token) *)
| SevSetBotName (botName : string)          (* util.SetBotName *)
| SevEnsureCacheDirs                        (* util.EnsureCacheDirs() *)
| SevEnsureConfigFiles                      (* files.EnsureConfigFiles() *)
| SevLoadConfig                             (* configManager.LoadConfig() *)
| SevMigrateAvatarJSONToSQLite              (* util.MigrateAvatarJSONToSQLite() *)
| SevStoreInit                              (* store.Init() *)
| SevLogConfiguredGuilds.                   (* files.LogConfiguredGuilds(...) *)

(** What the collaborators of the start answer. *)
Record StartupEnv : Type := mkStartupEnv {
  (** The token returned by [util.LoadEnvWithLocalBinFallback] (main.go:29). *)
  token : string;
  SetupLogger : option error;
  InitializeGlobalErrorHandler : option error;
  (** [session.NewDiscordSession(token)]: the user of the session, or an error. *)
  NewDiscordSession : string -> SessionUser + error;
  EnsureCacheDirs : option error;
  EnsureConfigFiles : option error;
  LoadConfig : option error;
  MigrateAvatarJSONToSQLite : option error;
  (** [store.Init()]. *)
  Init : option error;
  LogConfiguredGuilds : option error
}.

(** The same monad as [M], over the trace of the start. *)
Definition St (A : Type) : Type := list StartupEvent -> Res A * list StartupEvent.

Definition st_ret {A : Type} (a : A) : St A := fun tr => (Ret a, tr).

Definition st_bind {A B : Type} (m : St A) (k : A -> St B) : St B :=
  fun tr =>
    match m tr with
    | (Ret a, tr') => k a tr'
    | (Exit c, tr') => (Exit c, tr')
    | (Hang, tr') => (Hang, tr')
    end.

Definition st_emit (e : StartupEvent) : St unit := fun tr => (Ret tt, tr ++ [e]).

Definition st_Exit {A : Type} (code : Z) : St A := fun tr => (Exit code, tr).

(** A call that leaves its event and returns what the environment answers. *)
Definition st_call {A : Type} (e : StartupEvent) (answer : A) : St A :=
  st_bind (st_emit e) (fun _ => st_ret answer).

Definition st_log (lvl : Level) (msg : StartupMsg) : St unit := st_emit (SevLog lvl msg).

Declare Scope startup_scope.
Delimit Scope startup_scope with startup.
Notation "x <- m ;; k" := (st_bind m (fun x => k))
  (at level 61, m at next level, right associativity) : startup_scope.
Notation "m ;; k" := (st_bind m (fun _ => k))
  (at level 61, right associativity) : startup_scope.

(** main.go:33-111. *)
Definition startup (senv : StartupEnv) : St unit :=
  (r <- st_call SevSetupLogger (SetupLogger senv) ;;
   match r with
   | Some err => st_emit (SevPrintf err) ;; st_Exit 1
   | None =>
   r <- st_call SevInitializeGlobalErrorHandler (InitializeGlobalErrorHandler senv) ;;
   match r with
   | Some err => st_emit (SevFprintln err) ;; st_Exit 1
   | None =>
   st_log LevelInfo MsgStartingBot ;;
   if String.eqb (token senv) "" then
     st_log LevelError MsgTokenNotSet ;; st_Exit 1
   else
   st_log LevelInfo MsgAuthenticating ;;
   st_log LevelInfo MsgTokenRedacted ;;
   r <- st_call (SevNewDiscordSession (token senv)) (NewDiscordSession senv (token senv)) ;;
   match r with
   | inr err =>
       st_log LevelError (MsgAuthenticationFailed err) ;;
       st_log LevelError (MsgCreateSessionFailed err) ;;
       st_Exit 1
   | inl user =>
   st_log LevelInfo (MsgAuthenticated (Username user) (Discriminator user)) ;;
   st_emit (SevSetBotName (Username user)) ;;
   r <- st_call SevEnsureCacheDirs (EnsureCacheDirs senv) ;;
   match r with
   | Some err =>
       st_log LevelError (MsgCacheDirsFailed err) ;;
       st_log LevelError MsgCacheDirsFailedShort ;;
       st_Exit 1
   | None =>
   r <- st_call SevEnsureConfigFiles (EnsureConfigFiles senv) ;;
   match r with
   | Some err =>
       st_log LevelError (MsgConfigFilesFailed err) ;;
       st_log LevelError MsgConfigFilesFailedShort ;;
       st_Exit 1
   | None =>
   r <- st_call SevLoadConfig (LoadConfig senv) ;;
   match r with
   | Some err => st_log LevelError (MsgLoadSettingsFailed err)
   | None => st_ret tt
   end ;;
   r <- st_call SevMigrateAvatarJSONToSQLite (MigrateAvatarJSONToSQLite senv) ;;
   match r with
   | Some err => st_log LevelError (MsgMigrationFailed err)
   | None => st_ret tt
   end ;;
   r <- st_call SevStoreInit (Init senv) ;;
   match r with
   | Some err =>
       st_log LevelError (MsgStoreInitFailed err) ;;
       st_log LevelError MsgStoreInitFailedShort ;;
       st_Exit 1
   | None =>
   r <- st_call SevLogConfiguredGuilds (LogConfiguredGuilds senv) ;;
   match r with
   | Some err => st_log LevelError (MsgGuildsNotAccessible err)
   | None => st_ret tt
   end
   end end end end end end)%startup.

(** [main] from main.go:33 to its end: the start, then the reconciliation and
    the services when the start does not end the process. *)
Definition boot (senv : StartupEnv) (env : Env) (w : World)
    : Res unit * list StartupEvent * World :=
  match startup senv [] with
  | (Ret _, tr) => let (r, w') := main env w in (r, tr, w')
  | (Exit c, tr) => (Exit c, tr, w)
  | (Hang, tr) => (Hang, tr, w)
  end.

(** ** Vocabulary of the further properties *)

(** None of the steps that end the process fails. *)
Definition startup_succeeds (senv : StartupEnv) : bool :=
  match SetupLogger senv, InitializeGlobalErrorHandler senv,
        NewDiscordSession senv (token senv),
        EnsureCacheDirs senv, EnsureConfigFiles senv, Init senv with
  | None, None, inl _, None, None, None => negb (String.eqb (token senv) "")
  | _, _, _, _, _, _ => false
  end.

(** Steps that work on paths derived from the bot name. *)
Definition uses_bot_paths (e : StartupEvent) : bool :=
  match e with
  | SevEnsureCacheDirs | SevEnsureConfigFiles | SevLoadConfig
  | SevMigrateAvatarJSONToSQLite | SevStoreInit => true
  | _ => false
  end.

(** Every event accepted by [q] comes after an event accepted by [p]. *)
Definition preceded_by (p q : StartupEvent -> bool) (tr : list StartupEvent) : Prop :=
  forall l1 e l2, tr = l1 ++ e :: l2 -> q e = true -> exists e', In e' l1 /\ p e' = true.

(** The same, decided by one pass over the trace. *)
Fixpoint check_preceded (p q : StartupEvent -> bool) (seen : bool) (tr : list StartupEvent)
    : bool :=
  match tr with
  | [] => true
  | e :: rest => (seen || negb (q e)) && check_preceded p q (seen || p e) rest
  end.

(** Calls on the store. *)
Definition is_store_call (e : Event) : bool :=
  match e with
  | EvGetHeartbeat | EvUpsertAvatar _ _ _ _ | EvSetHeartbeat _ | EvStoreClose => true
  | _ => false
  end.

(** What the deferred function and the wait before it do. *)
Definition is_shutdown_event (e : Event) : bool :=
  match e with
  | EvWaitForInterrupt | EvStopHook _ | EvStoreClose => true
  | _ => false
  end.

(** The same environment with other answers of [store.UpsertAvatar] and
    [store.Close]. *)
Definition with_store_answers
    (upsert : string -> string -> string -> Time -> string * bool * option error)
    (close : option error) (env : Env) : Env :=
  {| store_is_nil := store_is_nil env;
     GetHeartbeat := GetHeartbeat env;
     SetHeartbeat := SetHeartbeat env;
     UpsertAvatar := upsert;
     Close := close;
     Config := Config env;
     GuildMembers := GuildMembers env;
     clock := clock env;
     NewMonitoringService := NewMonitoringService env;
     monitoringService_Start := monitoringService_Start env;
     monitoringService_Stop := monitoringService_Stop env;
     automodService_Start := automodService_Start env;
     automodService_Stop := automodService_Stop env;
     SetupCommands := SetupCommands env;
     StopAll_deadline := StopAll_deadline env |}.

(** The member request or upsert [e] concerns a configured guild: a request
    asks for the first 1000 members of one; an upsert stores, under the
    guild's id, a user of the member list obtained for that guild. *)
Definition within_configuration (env : Env) (e : Event) : Prop :=
  match e with
  | EvGuildMembers guildID after limit =>
      In guildID (map GuildID (configured_guilds env)) /\ after = "" /\ limit = 1000%Z
  | EvUpsertAvatar guildID userID avatarHash _ =>
      In guildID (map GuildID (configured_guilds env))
      /\ exists members user,
           GuildMembers env guildID "" 1000 = inl members
           /\ In (Some (mkMember (Some user))) members
           /\ userID = ID user
           /\ avatarHash = avatar_value user
  | _ => True
  end.

(** A start in which everything succeeds, and one whose configuration file
    and migration fail. *)
Definition senv_ok : StartupEnv :=
  {| token := "s3cr3t";
     SetupLogger := None;
     InitializeGlobalErrorHandler := None;
     NewDiscordSession := fun _ => inl (mkSessionUser "alicebot" "0042");
     EnsureCacheDirs := None;
     EnsureConfigFiles := None;
     LoadConfig := None;
     MigrateAvatarJSONToSQLite := None;
     Init := None;
     LogConfiguredGuilds := None |}.

Definition senv_soft_failures : StartupEnv :=
  {| token := "s3cr3t";
     SetupLogger := None;
     InitializeGlobalErrorHandler := None;
     NewDiscordSession := fun _ => inl (mkSessionUser "alicebot" "0042");
     EnsureCacheDirs := None;
     EnsureConfigFiles := None;
     LoadConfig := Some (ErrExternal "settings.json: unexpected end of input");
     MigrateAvatarJSONToSQLite := Some (ErrExternal "avatars.json: permission denied");
     Init := None;
     LogConfiguredGuilds := Some (ErrExternal "guild g2: missing access") |}.

(** When [m] ends the process, the exit code is 1 and what [m] did until
    then is accepted by [q]. *)
Definition exits_early (q : Event -> bool) {A : Type} (m : M A) : Prop :=
  forall w c, fst (m w) = Exit c ->
  c = 1%Z /\ exists evs, trace (snd (m w)) = trace w ++ evs /\ forallb q evs = true.

(** [m] never ends the process. *)
Definition never_exits {A : Type} (m : M A) : Prop :=
  forall w c, fst (m w) <> Exit c.

(** Registering the commands fails after both services have started. *)
Definition env_commands_fail : Env :=
  {| store_is_nil := false;
     GetHeartbeat := ((80 * Minute)%Z, true, None);
     SetHeartbeat := fun _ => None;
     UpsertAvatar := fun _ _ _ _ => ("", true, None);
     Close := None;
     Config := Some (mkBotConfig [mkGuildConfig "g1"]);
     GuildMembers := sample_GuildMembers;
     clock := sample_clock;
     NewMonitoringService := None;
     monitoringService_Start := Returned [] Second None;
     monitoringService_Stop := stops_cleanly;
     automodService_Start := Some ([], Second);
     automodService_Stop := Some ([], Second);
     SetupCommands := Some (ErrExternal "HTTP 429 Too Many Requests");
     StopAll_deadline := (10 * Second)%Z |}.

(** A nil store. *)
Definition env_nil_store : Env :=
  {| store_is_nil := true;
     GetHeartbeat := (0%Z, false, None);
     SetHeartbeat := fun _ => None;
     UpsertAvatar := fun _ _ _ _ => ("", true, None);
     Close := None;
     Config := Some (mkBotConfig [mkGuildConfig "g1"]);
     GuildMembers := sample_GuildMembers;
     clock := sample_clock;
     NewMonitoringService := None;
     monitoringService_Start := Returned [] Second None;
     monitoringService_Stop := stops_cleanly;
     automodService_Start := Some ([], Second);
     automodService_Stop := Some ([], Second);
     SetupCommands := None;
     StopAll_deadline := (10 * Second)%Z |}.

(** A stale heartbeat and a nil configuration. *)
Definition env_nil_config : Env :=
  {| store_is_nil := false;
     GetHeartbeat := ((40 * Minute)%Z, true, None);
     SetHeartbeat := fun _ => None;
     UpsertAvatar := fun _ _ _ _ => ("", true, None);
     Close := None;
     Config := None;
     GuildMembers := sample_GuildMembers;
     clock := sample_clock;
     NewMonitoringService := None;
     monitoringService_Start := Returned [] Second None;
     monitoringService_Stop := stops_cleanly;
     automodService_Start := Some ([], Second);
     automodService_Stop := Some ([], Second);
     SetupCommands := None;
     StopAll_deadline := (10 * Second)%Z |}.

(** * Properties *)

(** ** The monad and the loops *)

Lemma bind_Ret (A B : Type) (m : M A) (k : A -> M B) (w w' : World) (a : A) :
  m w = (Ret a, w') -> bind m k w = k a w'.
Proof. unfold bind. intros ->. reflexivity. Qed.

Lemma bind_Exit (A B : Type) (m : M A) (k : A -> M B) (w w' : World) (c : Z) :
  m w = (Exit c, w') -> bind m k w = (Exit c, w').
Proof. unfold bind. intros ->. reflexivity. Qed.

Lemma bind_Hang (A B : Type) (m : M A) (k : A -> M B) (w w' : World) :
  m w = (Hang, w') -> bind m k w = (Hang, w').
Proof. unfold bind. intros ->. reflexivity. Qed.

Lemma emit_run (e : Event) (w : World) :
  emit e w = (Ret tt, {| trace := trace w ++ [e]; ticks := ticks w |}).
Proof. reflexivity. Qed.

Lemma world_eta (w : World) : {| trace := trace w; ticks := ticks w |} = w.
Proof. destruct w; reflexivity. Qed.

Lemma world_unchanged (w : World) :
  {| trace := trace w ++ []; ticks := ticks w + 0 |} = w.
Proof. rewrite app_nil_r, Nat.add_0_r. apply world_eta. Qed.


Lemma emitted_spec (A : Type) (m : M A) (w : World) (evs : list Event) :
  trace (snd (m w)) = trace w ++ evs -> emitted m w = evs.
Proof.
  intro H. unfold emitted. rewrite H.
  rewrite skipn_app, skipn_all, Nat.sub_diag. reflexivity.
Qed.

(** ** The refresh pass performs the calls of [guilds_events] *)

Lemma stamp_app (env : Env) (l1 l2 : list (string * string * string)) (n : nat) :
  stamp env n (l1 ++ l2) = stamp env n l1 ++ stamp env (n + List.length l1) l2.
Proof.
  revert n. induction l1 as [|[[g u] a] l1 IH]; intro n; simpl.
  - rewrite Nat.add_0_r. reflexivity.
  - rewrite IH. replace (S n + List.length l1) with (n + S (List.length l1)) by lia.
    reflexivity.
Qed.

Lemma refresh_member_run (env : Env) (guildID : string) (member : option Member) (w : World) :
  refresh_member env guildID member w =
  (Ret tt, {| trace := trace w ++ stamp env (ticks w) (member_targets guildID member);
              ticks := ticks w + List.length (member_targets guildID member) |}).
Proof.
  unfold refresh_member, member_targets.
  destruct member as [m|]; [destruct (MemberUser m) as [user|] |];
    simpl; unfold ret; rewrite ?world_unchanged; try reflexivity.
  unfold avatar_value. rewrite Nat.add_1_r. reflexivity.
Qed.

Lemma refresh_members_run (env : Env) (guildID : string) (members : list (option Member))
    (w : World) :
  for_range members (refresh_member env guildID) w =
  (Ret tt, {| trace := trace w ++ stamp env (ticks w) (flat_map (member_targets guildID) members);
              ticks := ticks w + List.length (flat_map (member_targets guildID) members) |}).
Proof.
  revert w. induction members as [|member members IH]; intro w; simpl.
  - unfold ret. rewrite world_unchanged. reflexivity.
  - erewrite bind_Ret by apply (refresh_member_run env guildID member w).
    rewrite IH. simpl. rewrite stamp_app, length_app, app_assoc, Nat.add_assoc.
    reflexivity.
Qed.

Lemma refresh_guild_run (env : Env) (gcfg : GuildConfig) (w : World) :
  refresh_guild env gcfg w =
  (Ret tt, {| trace := trace w ++ guild_events env (ticks w) gcfg;
              ticks := ticks w + List.length (guild_targets env gcfg) |}).
Proof.
  unfold refresh_guild, discordSession_GuildMembers, guild_events, guild_targets.
  unfold bind at 1. unfold bind at 1. simpl.
  destruct (GuildMembers env (GuildID gcfg) "" 1000) as [members|err].
  - rewrite refresh_members_run. simpl. rewrite <- app_assoc. reflexivity.
  - unfold log_Error. rewrite emit_run. simpl.
    rewrite <- app_assoc, Nat.add_0_r. reflexivity.
Qed.

Lemma refresh_guilds_run (env : Env) (guilds : list GuildConfig) (w : World) :
  for_range guilds (refresh_guild env) w =
  (Ret tt, {| trace := trace w ++ guilds_events env (ticks w) guilds;
              ticks := ticks w + List.length (flat_map (guild_targets env) guilds) |}).
Proof.
  revert w. induction guilds as [|gcfg guilds IH]; intro w; simpl.
  - unfold ret. rewrite world_unchanged. reflexivity.
  - erewrite bind_Ret by apply (refresh_guild_run env gcfg w).
    rewrite IH. simpl. rewrite length_app, <- app_assoc, Nat.add_assoc. reflexivity.
Qed.

Lemma silent_refresh_run (env : Env) (w : World) :
  silent_refresh env w =
  (Ret tt,
   {| trace := trace w
               ++ [EvLog LevelInfo MsgDowntimeDetected]
               ++ guilds_events env (ticks w) (configured_guilds env)
               ++ [EvLog LevelInfo MsgRefreshCompleted];
      ticks := ticks w + List.length (refresh_targets env) |}).
Proof.
  unfold silent_refresh, refresh_targets, configured_guilds, log_Info.
  erewrite bind_Ret by apply (emit_run _ w).
  destruct (Config env) as [cfg|].
  - erewrite bind_Ret by apply (refresh_guilds_run env (Guilds cfg) _).
    rewrite emit_run. simpl. rewrite <- !app_assoc. reflexivity.
  - unfold ret at 1. unfold bind. rewrite emit_run. simpl.
    rewrite <- !app_assoc, Nat.add_0_r. reflexivity.
Qed.

(** ** The four ways through [reconcile] *)

Lemma reconcile_nil_store (env : Env) (w : World) :
  store_is_nil env = true -> reconcile env w = (Ret tt, w).
Proof. unfold reconcile. intros ->. reflexivity. Qed.

Lemma reconcile_read_error (env : Env) (lastHB : Time) (ok : bool) (err : error) (w : World) :
  store_is_nil env = false ->
  GetHeartbeat env = (lastHB, ok, Some err) ->
  reconcile env w =
  (Ret tt,
   {| trace := trace w ++ [EvGetHeartbeat;
                           EvLog LevelError (MsgHeartbeatReadFailed err);
                           EvSetHeartbeat (clock env (ticks w))];
      ticks := S (ticks w) |}).
Proof.
  intros Hstore Hhb. unfold reconcile, store_GetHeartbeat, store_SetHeartbeat,
    time_Now, log_Error, emit, bind, ret.
  rewrite Hstore, Hhb. simpl. rewrite <- !app_assoc. reflexivity.
Qed.

Lemma reconcile_skipped (env : Env) (lastHB : Time) (w : World) :
  store_is_nil env = false ->
  GetHeartbeat env = (lastHB, true, None) ->
  (Sub (clock env (ticks w)) lastHB >? 30 * Minute)%Z = false ->
  reconcile env w =
  (Ret tt,
   {| trace := trace w ++ [EvGetHeartbeat;
                           EvLog LevelInfo MsgNoDowntime;
                           EvSetHeartbeat (clock env (S (ticks w)))];
      ticks := S (S (ticks w)) |}).
Proof.
  intros Hstore Hhb Hage. unfold reconcile, store_GetHeartbeat, store_SetHeartbeat,
    downtime_detected, time_Since, time_Now, log_Info, emit, bind, ret.
  rewrite Hstore, Hhb. cbn -[Sub Z.gtb Z.mul Minute]. rewrite Hage.
  cbn. rewrite <- !app_assoc. reflexivity.
Qed.

Lemma reconcile_taken (env : Env) (lastHB : Time) (ok : bool) (w : World) :
  store_is_nil env = false ->
  GetHeartbeat env = (lastHB, ok, None) ->
  negb ok || (Sub (clock env (ticks w)) lastHB >? 30 * Minute)%Z = true ->
  reconcile env w =
  (Ret tt,
   {| trace := trace w
               ++ [EvGetHeartbeat; EvLog LevelInfo MsgDowntimeDetected]
               ++ guilds_events env (pass_start ok w) (configured_guilds env)
               ++ [EvLog LevelInfo MsgRefreshCompleted;
                   EvSetHeartbeat
                     (clock env (pass_start ok w + List.length (refresh_targets env)))];
      ticks := S (pass_start ok w + List.length (refresh_targets env)) |}).
Proof.
  intros Hstore Hhb Hstale. unfold reconcile. rewrite Hstore.
  unfold store_GetHeartbeat. rewrite Hhb.
  unfold bind at 1. unfold bind at 1. rewrite emit_run. unfold ret at 1.
  unfold bind at 1. unfold bind at 1.
  assert (Hd : downtime_detected env lastHB ok
                 {| trace := trace w ++ [EvGetHeartbeat]; ticks := ticks w |}
               = (Ret true, {| trace := trace w ++ [EvGetHeartbeat];
                               ticks := pass_start ok w |})).
  { unfold downtime_detected, pass_start, time_Since, time_Now, bind, ret.
    destruct ok; cbn -[Sub Z.gtb Z.mul Minute] in *.
    - rewrite Hstale. reflexivity.
    - reflexivity. }
  rewrite Hd, silent_refresh_run.
  unfold store_SetHeartbeat, time_Now, emit, bind, ret. simpl.
  rewrite <- !app_assoc. simpl. rewrite <- !app_assoc. reflexivity.
Qed.

(** ** Upserts and member requests of the pass *)

Lemma upserts_app (l1 l2 : list Event) : upserts (l1 ++ l2) = upserts l1 ++ upserts l2.
Proof. apply filter_app. Qed.

Lemma fetched_guilds_app (l1 l2 : list Event) :
  fetched_guilds (l1 ++ l2) = fetched_guilds l1 ++ fetched_guilds l2.
Proof. apply flat_map_app. Qed.

Lemma upserts_stamp (env : Env) (n : nat) (targets : list (string * string * string)) :
  upserts (stamp env n targets) = stamp env n targets.
Proof.
  revert n. induction targets as [|[[g u] a] targets IH]; intro n; simpl.
  - reflexivity.
  - f_equal. apply IH.
Qed.

Lemma fetched_guilds_stamp (env : Env) (n : nat) (targets : list (string * string * string)) :
  fetched_guilds (stamp env n targets) = [].
Proof.
  revert n. induction targets as [|[[g u] a] targets IH]; intro n; simpl.
  - reflexivity.
  - apply IH.
Qed.

Lemma upserts_guild_events (env : Env) (n : nat) (gcfg : GuildConfig) :
  upserts (guild_events env n gcfg) = stamp env n (guild_targets env gcfg).
Proof.
  unfold guild_events, guild_targets. simpl.
  destruct (GuildMembers env (GuildID gcfg) "" 1000); simpl.
  - apply upserts_stamp.
  - reflexivity.
Qed.

Lemma fetched_guilds_guild_events (env : Env) (n : nat) (gcfg : GuildConfig) :
  fetched_guilds (guild_events env n gcfg) = [GuildID gcfg].
Proof.
  unfold guild_events. simpl.
  destruct (GuildMembers env (GuildID gcfg) "" 1000); simpl.
  - rewrite fetched_guilds_stamp. reflexivity.
  - reflexivity.
Qed.

Lemma upserts_guilds_events (env : Env) (guilds : list GuildConfig) (n : nat) :
  upserts (guilds_events env n guilds) = stamp env n (flat_map (guild_targets env) guilds).
Proof.
  revert n. induction guilds as [|gcfg guilds IH]; intro n; cbn [guilds_events flat_map].
  - reflexivity.
  - rewrite upserts_app, upserts_guild_events, IH, stamp_app. reflexivity.
Qed.

Lemma fetched_guilds_guilds_events (env : Env) (guilds : list GuildConfig) (n : nat) :
  fetched_guilds (guilds_events env n guilds) = map GuildID guilds.
Proof.
  revert n. induction guilds as [|gcfg guilds IH]; intro n; cbn [guilds_events map].
  - reflexivity.
  - rewrite fetched_guilds_app, fetched_guilds_guild_events, IH. reflexivity.
Qed.

Lemma age_not_stale (age : Duration) :
  (age <= 30 * Minute)%Z <-> (age >? 30 * Minute)%Z = false.
Proof.
  rewrite Z.gtb_ltb, Z.ltb_ge. reflexivity.
Qed.

Lemma age_stale (age : Duration) :
  (age > 30 * Minute)%Z <-> (age >? 30 * Minute)%Z = true.
Proof.
  rewrite Z.gtb_ltb, Z.ltb_lt. lia.
Qed.

(** ** Properties of the reconciliation *)

(** C9. When [store.GetHeartbeat()] returns an error, whatever it returns
    beside it, [reconcile] logs the failure and fetches and upserts nothing;
    it still writes a heartbeat stamped with the current clock reading and
    returns, and [main] goes on with the creation of the services. *)
Theorem heartbeat_read_error_skips_refresh
    (env : Env) (lastHB : Time) (ok : bool) (err : error) (w : World) :
  store_is_nil env = false ->
  GetHeartbeat env = (lastHB, ok, Some err) ->
  let after :=
    {| trace := trace w ++ [EvGetHeartbeat;
                            EvLog LevelError (MsgHeartbeatReadFailed err);
                            EvSetHeartbeat (clock env (ticks w))];
       ticks := S (ticks w) |} in
  reconcile env w = (Ret tt, after)
  /\ upserts (emitted (reconcile env) w) = []
  /\ fetched_guilds (emitted (reconcile env) w) = []
  /\ main env w = run_services env after.
Proof.
  intros Hstore Hhb after.
  pose proof (reconcile_read_error env w Hstore Hhb) as Hrun. fold after in Hrun.
  assert (Hev : emitted (reconcile env) w =
                [EvGetHeartbeat; EvLog LevelError (MsgHeartbeatReadFailed err);
                 EvSetHeartbeat (clock env (ticks w))]).
  { apply emitted_spec. rewrite Hrun. reflexivity. }
  repeat split.
  - exact Hrun.
  - rewrite Hev. reflexivity.
  - rewrite Hev. reflexivity.
  - unfold main. erewrite bind_Ret by exact Hrun. reflexivity.
Qed.

Lemma heartbeat_read_error_skips_refresh_witness :
  reconcile env_read_error w0 =
    (Ret tt,
     {| trace := [EvGetHeartbeat;
                  EvLog LevelError (MsgHeartbeatReadFailed (ErrExternal "database is locked"));
                  EvSetHeartbeat (sample_clock 0)];
        ticks := 1 |})
  /\ upserts (emitted (reconcile env_read_error) w0) = []
  /\ fetched_guilds (emitted (reconcile env_read_error) w0) = []
  /\ main env_read_error w0 =
     run_services env_read_error
       {| trace := [EvGetHeartbeat;
                    EvLog LevelError (MsgHeartbeatReadFailed (ErrExternal "database is locked"));
                    EvSetHeartbeat (sample_clock 0)];
          ticks := 1 |}.
Proof.
  apply (@heartbeat_read_error_skips_refresh env_read_error 0%Z false
           (ErrExternal "database is locked") w0); reflexivity.
Defined.

(** C4. When a heartbeat was found and it is not older than 30 minutes at
    the clock reading of the staleness test, [reconcile] upserts nothing and
    requests no member list: whether or not the store is nil and whatever
    error the read returned. *)
Theorem fresh_heartbeat_no_upserts
    (env : Env) (lastHB : Time) (err : option error) (w : World) :
  GetHeartbeat env = (lastHB, true, err) ->
  (Sub (clock env (ticks w)) lastHB <= 30 * Minute)%Z ->
  upserts (emitted (reconcile env) w) = []
  /\ fetched_guilds (emitted (reconcile env) w) = [].
Proof.
  intros Hhb Hage. apply age_not_stale in Hage.
  destruct (store_is_nil env) eqn:Hstore.
  - assert (Hev : emitted (reconcile env) w = []).
    { apply emitted_spec. rewrite reconcile_nil_store by assumption.
      simpl. rewrite app_nil_r. reflexivity. }
    rewrite Hev. split; reflexivity.
  - destruct err as [err|].
    + assert (Hev : emitted (reconcile env) w =
                    [EvGetHeartbeat; EvLog LevelError (MsgHeartbeatReadFailed err);
                     EvSetHeartbeat (clock env (ticks w))]).
      { apply emitted_spec. rewrite (reconcile_read_error env w Hstore Hhb). reflexivity. }
      rewrite Hev. split; reflexivity.
    + assert (Hev : emitted (reconcile env) w =
                    [EvGetHeartbeat; EvLog LevelInfo MsgNoDowntime;
                     EvSetHeartbeat (clock env (S (ticks w)))]).
      { apply emitted_spec. rewrite (reconcile_skipped env w Hstore Hhb Hage). reflexivity. }
      rewrite Hev. split; reflexivity.
Qed.

Lemma fresh_heartbeat_no_upserts_witness :
  upserts (emitted (reconcile env_fresh) w0) = []
  /\ fetched_guilds (emitted (reconcile env_fresh) w0) = [].
Proof.
  apply (@fresh_heartbeat_no_upserts env_fresh (80 * Minute)%Z None w0).
  - reflexivity.
  - vm_compute. discriminate.
Defined.

Lemma reconcile_run (env : Env) (w : World) :
  exists evs n,
    reconcile env w = (Ret tt, {| trace := trace w ++ evs; ticks := n |})
    /\ reconcile_shape env evs.
Proof.
  destruct (store_is_nil env) eqn:Hstore.
  - exists [], (ticks w). rewrite reconcile_nil_store by assumption.
    rewrite app_nil_r, world_eta. split; [reflexivity | constructor].
  - destruct (GetHeartbeat env) as [[lastHB ok] [err|]] eqn:Hhb.
    + eexists _, _. rewrite (reconcile_read_error env w Hstore Hhb).
      split; [reflexivity | constructor].
    + destruct (negb ok || (Sub (clock env (ticks w)) lastHB >? 30 * Minute)%Z) eqn:Hstale.
      * eexists _, _. rewrite (reconcile_taken env w Hstore Hhb Hstale).
        split; [reflexivity | constructor].
      * apply orb_false_elim in Hstale. destruct Hstale as [Hok Hage].
        apply negb_false_iff in Hok. subst ok.
        eexists _, _. rewrite (reconcile_skipped env w Hstore Hhb Hage).
        split; [reflexivity | constructor].
Qed.

Lemma reconcile_emitted (env : Env) (w : World) (evs : list Event) (n : nat) :
  reconcile env w = (Ret tt, {| trace := trace w ++ evs; ticks := n |}) ->
  emitted (reconcile env) w = evs.
Proof. intro H. apply emitted_spec. rewrite H. reflexivity. Qed.

(** C1, as the code has it.  When the store is not nil and the heartbeat
    read returns no error, the refresh pass is entered exactly when no
    heartbeat was found or the one found is strictly older than 30 minutes.
    When entered, it requests the members of every configured guild, in
    order, and its upserts are those of [refresh_targets]: for each guild
    whose member list was obtained, one per member that is not nil and has a
    user, keyed by guild and user, carrying [avatar_value] of the user, each
    stamped with its own reading of the clock.  When a heartbeat was found
    and is not strictly older, nothing is requested or upserted. *)
Theorem refresh_pass_when_read_succeeds
    (env : Env) (lastHB : Time) (ok : bool) (w : World) :
  store_is_nil env = false ->
  GetHeartbeat env = (lastHB, ok, None) ->
  let evs := emitted (reconcile env) w in
  let age := Sub (clock env (ticks w)) lastHB in
  (refresh_pass_taken evs <-> ok = false \/ (age > 30 * Minute)%Z)
  /\ (refresh_pass_taken evs ->
      fetched_guilds evs = map GuildID (configured_guilds env)
      /\ upserts evs = stamp env (pass_start ok w) (refresh_targets env))
  /\ (ok = true -> (age <= 30 * Minute)%Z ->
      fetched_guilds evs = [] /\ upserts evs = []).
Proof.
  intros Hstore Hhb evs age.
  destruct (negb ok || (age >? 30 * Minute)%Z) eqn:Hstale.
  - (* the pass is entered *)
    pose proof (reconcile_taken env w Hstore Hhb Hstale) as Hrun.
    apply reconcile_emitted in Hrun. fold evs in Hrun.
    assert (Htaken : refresh_pass_taken evs).
    { unfold refresh_pass_taken. rewrite Hrun. simpl. auto. }
    split; [|split].
    + split; [|intros _; exact Htaken].
      intros _. apply orb_true_iff in Hstale. destruct Hstale as [Hok|Hage].
      * left. apply negb_true_iff. exact Hok.
      * right. apply age_stale. exact Hage.
    + intros _. rewrite Hrun. split.
      * rewrite !fetched_guilds_app, fetched_guilds_guilds_events. simpl.
        rewrite app_nil_r. reflexivity.
      * rewrite !upserts_app, upserts_guilds_events. simpl.
        rewrite app_nil_r. reflexivity.
    + intros -> Hage. apply age_not_stale in Hage.
      cbn [negb orb] in Hstale. rewrite Hage in Hstale. discriminate.
  - (* the pass is skipped *)
    apply orb_false_elim in Hstale. destruct Hstale as [Hok Hage].
    apply negb_false_iff in Hok. subst ok.
    pose proof (reconcile_skipped env w Hstore Hhb Hage) as Hrun.
    apply reconcile_emitted in Hrun. fold evs in Hrun.
    assert (Hnot : ~ refresh_pass_taken evs).
    { unfold refresh_pass_taken. rewrite Hrun. simpl.
      intros [H|[H|[H|[]]]]; discriminate. }
    split; [|split].
    + split; [intro H; contradiction|].
      intros [H|H]; [discriminate|]. apply age_stale in H.
      unfold age in *. rewrite H in Hage. discriminate.
    + intro H. contradiction.
    + intros _ _. rewrite Hrun. split; reflexivity.
Qed.

Lemma refresh_pass_when_read_succeeds_witness :
  (refresh_pass_taken (emitted (reconcile env_stale) w0) <->
   true = false \/ (Sub (clock env_stale (ticks w0)) (40 * Minute) > 30 * Minute)%Z)
  /\ (refresh_pass_taken (emitted (reconcile env_stale) w0) ->
      fetched_guilds (emitted (reconcile env_stale) w0)
        = map GuildID (configured_guilds env_stale)
      /\ upserts (emitted (reconcile env_stale) w0)
        = stamp env_stale (pass_start true w0) (refresh_targets env_stale))
  /\ (true = true -> (Sub (clock env_stale (ticks w0)) (40 * Minute) <= 30 * Minute)%Z ->
      fetched_guilds (emitted (reconcile env_stale) w0) = []
      /\ upserts (emitted (reconcile env_stale) w0) = []).
Proof.
  apply (@refresh_pass_when_read_succeeds env_stale (40 * Minute)%Z true w0); reflexivity.
Defined.

(** C1 as stated fails in two ways.  With [env_read_error] the heartbeat is
    absent (not found) and the read returns an error: the pass is not taken.
    With [env_absent] the pass is taken and the member with the empty avatar
    hash is upserted with ["default"], not with its avatar value. *)
Lemma reconciliation_as_stated_fails :
  ~ reconciliation_as_stated env_read_error w0
  /\ ~ reconciliation_as_stated env_absent w0.
Proof.
  split.
  - intros [Hiff _].
    assert (Habsent : heartbeat_absent_or_stale env_read_error (clock env_read_error (ticks w0))).
    { left. reflexivity. }
    apply Hiff in Habsent. vm_compute in Habsent.
    destruct Habsent as [H|[H|[H|[]]]]; discriminate.
  - intros [_ Hups].
    assert (Htaken : refresh_pass_taken (emitted (reconcile env_absent) w0)).
    { vm_compute. auto. }
    apply Hups in Htaken. vm_compute in Htaken. discriminate.
Qed.

(** C10. No upsert of [reconcile] carries the empty avatar value; a nil
    member and a member without user are passed over without any call; a
    user with the empty avatar hash is upserted with ["default"]. *)
Theorem upserts_carry_nonempty_avatar (env : Env) (w : World) :
  Forall (fun e => match e with
                   | EvUpsertAvatar _ _ avatarHash _ => avatarHash <> ""
                   | _ => True
                   end) (emitted (reconcile env) w)
  /\ (forall guildID w', refresh_member env guildID None w' = (Ret tt, w'))
  /\ (forall guildID w', refresh_member env guildID (Some (mkMember None)) w' = (Ret tt, w'))
  /\ (forall guildID userID w',
        refresh_member env guildID (Some (mkMember (Some (mkUser userID "")))) w'
        = (Ret tt, {| trace := trace w' ++ [EvUpsertAvatar guildID userID "default"
                                              (clock env (ticks w'))];
                      ticks := S (ticks w') |})).
Proof.
  assert (Hvalue : forall user, avatar_value user <> "").
  { intro user. unfold avatar_value.
    destruct (String.eqb (Avatar user) "") eqn:E.
    - discriminate.
    - apply String.eqb_neq. exact E. }
  assert (Hstamp : forall targets n,
             Forall (fun t => snd t <> "") targets ->
             Forall (fun e => match e with
                              | EvUpsertAvatar _ _ avatarHash _ => avatarHash <> ""
                              | _ => True
                              end) (stamp env n targets)).
  { induction targets as [|[[g u] a] targets IH]; intros n H; simpl.
    - constructor.
    - inversion H; subst. constructor; [assumption | apply IH; assumption]. }
  assert (Hmember : forall g members,
             Forall (fun t => snd t <> "") (flat_map (member_targets g) members)).
  { intros g members. induction members as [|member members IH]; simpl.
    - constructor.
    - destruct member as [[[user|]]|]; simpl; try exact IH.
      constructor; [apply Hvalue | exact IH]. }
  assert (Hguilds : forall guilds n,
             Forall (fun e => match e with
                              | EvUpsertAvatar _ _ avatarHash _ => avatarHash <> ""
                              | _ => True
                              end) (guilds_events env n guilds)).
  { induction guilds as [|gcfg guilds IH]; intro n; cbn [guilds_events].
    - constructor.
    - apply Forall_app. split; [|apply IH].
      unfold guild_events, guild_targets.
      destruct (GuildMembers env (GuildID gcfg) "" 1000) as [members|err].
      + constructor; [exact I|]. apply Hstamp, Hmember.
      + repeat constructor. }
  split; [|split; [|split]].
  - destruct (reconcile_run env w) as (evs & n & Hrun & Hshape).
    apply reconcile_emitted in Hrun. rewrite Hrun.
    destruct Hshape; repeat (constructor; try exact I).
    apply Forall_app. split; [apply Hguilds | repeat constructor].
  - intros. reflexivity.
  - intros. reflexivity.
  - intros. reflexivity.
Qed.



Lemma guilds_events_pass (env : Env) (guilds : list GuildConfig) (n : nat) :
  Forall (fun e => pass_event e = true) (guilds_events env n guilds).
Proof.
  assert (Hstamp : forall targets m, Forall (fun e => pass_event e = true) (stamp env m targets)).
  { induction targets as [|[[g u] a] targets IH]; intro m; simpl; constructor.
    - reflexivity.
    - apply IH. }
  revert n. induction guilds as [|gcfg guilds IH]; intro n; cbn [guilds_events].
  - constructor.
  - apply Forall_app. split; [|apply IH].
    unfold guild_events. constructor; [reflexivity|].
    destruct (GuildMembers env (GuildID gcfg) "" 1000).
    + apply Hstamp.
    + repeat constructor.
Qed.

(** C7. The refresh pass only logs, requests member lists and upserts
    avatars; [reconcile] as a whole adds the read and the write of the
    heartbeat.  No notification is sent and no service hook is called. *)
Theorem reconcile_sends_no_notification (env : Env) (w : World) :
  Forall (fun e => pass_event e = true) (emitted (silent_refresh env) w)
  /\ Forall (fun e => reconcile_event e = true) (emitted (reconcile env) w)
  /\ Forall (fun e => is_notification e = false /\ is_start_hook e = false)
       (emitted (reconcile env) w).
Proof.
  assert (Hpass : Forall (fun e => pass_event e = true) (emitted (silent_refresh env) w)).
  { erewrite emitted_spec by (rewrite silent_refresh_run; reflexivity).
    constructor; [reflexivity|]. apply Forall_app. split.
    - apply guilds_events_pass.
    - repeat constructor. }
  assert (Hrec : Forall (fun e => reconcile_event e = true) (emitted (reconcile env) w)).
  { destruct (reconcile_run env w) as (evs & n & Hrun & Hshape).
    apply reconcile_emitted in Hrun. rewrite Hrun.
    destruct Hshape; repeat (constructor; try reflexivity).
    apply Forall_app. split; [|repeat constructor].
    eapply Forall_impl; [|apply guilds_events_pass].
    intros e He. destruct e; try discriminate; reflexivity. }
  split; [exact Hpass | split; [exact Hrec |]].
  eapply Forall_impl; [|exact Hrec].
  intros e He. destruct e; try discriminate; split; reflexivity.
Qed.

(** ** Which calls a computation can make *)

Lemma emits_nothing (p : Event -> bool) (A : Type) (m : M A) :
  (forall w, snd (m w) = w) -> emits p m.
Proof.
  intros H w. exists []. rewrite H, app_nil_r. split; reflexivity.
Qed.

Lemma emits_ret (p : Event -> bool) (A : Type) (a : A) : emits p (ret a).
Proof. apply emits_nothing. reflexivity. Qed.

Lemma emits_os_Exit (p : Event -> bool) (A : Type) (c : Z) : emits p (@os_Exit A c).
Proof. apply emits_nothing. reflexivity. Qed.

Lemma emits_block_forever (p : Event -> bool) (A : Type) : emits p (@block_forever A).
Proof. apply emits_nothing. reflexivity. Qed.

Lemma emits_emit (p : Event -> bool) (e : Event) : p e = true -> emits p (emit e).
Proof.
  intros H w. exists [e]. simpl. rewrite H. split; reflexivity.
Qed.

Lemma emits_bind (p : Event -> bool) (A B : Type) (m : M A) (k : A -> M B) :
  emits p m -> (forall a, emits p (k a)) -> emits p (bind m k).
Proof.
  intros Hm Hk w. unfold bind.
  destruct (Hm w) as (evs1 & Ht1 & Hp1).
  destruct (m w) as [[a|c|] w1]; simpl in Ht1.
  - destruct (Hk a w1) as (evs2 & Ht2 & Hp2).
    exists (evs1 ++ evs2). rewrite Ht2, Ht1, app_assoc, forallb_app, Hp1, Hp2.
    split; reflexivity.
  - exists evs1. split; assumption.
  - exists evs1. split; assumption.
Qed.

Lemma emits_for_range (p : Event -> bool) (A : Type) (l : list A) (body : A -> M unit) :
  (forall x, emits p (body x)) -> emits p (for_range l body).
Proof.
  intro Hbody. induction l as [|x l IH]; simpl.
  - apply emits_ret.
  - apply emits_bind; [apply Hbody | intros _; exact IH].
Qed.

Lemma emits_notify_all (p : Event -> bool) (notifications : list string) :
  accepts_hooks p -> emits p (notify_all notifications).
Proof.
  intro Hp. apply emits_for_range. intro text. apply emits_emit, Hp. reflexivity.
Qed.

Lemma emits_call_hook (p : Event -> bool) (ev : Event) (h : HookResult) :
  accepts_hooks p -> hook_event ev = true -> emits p (call_hook ev h).
Proof.
  intros Hp Hev. unfold call_hook.
  apply emits_bind; [apply emits_emit, Hp, Hev | intros _].
  destruct h; (apply emits_bind; [apply emits_notify_all, Hp | intros _]).
  - apply emits_ret.
  - apply emits_block_forever.
Qed.

Lemma emits_start_in_order (p : Event -> bool) (order : list ServiceWrapper)
    (sm : ServiceManager) :
  accepts_hooks p -> emits p (start_in_order order sm).
Proof.
  intro Hp. revert sm. induction order as [|d order IH]; intro sm; simpl.
  - apply emits_ret.
  - apply emits_bind; [apply emits_call_hook; [exact Hp | reflexivity] | intros [took err]].
    simpl. destruct err; [apply emits_ret | apply IH].
Qed.

Lemma emits_StartAll (p : Event -> bool) (sm : ServiceManager) :
  accepts_hooks p -> emits p (StartAll sm).
Proof.
  intro Hp. unfold StartAll.
  destruct (first_unknown_dependency _ _) as [[serviceID missingID]|].
  - apply emits_ret.
  - destruct (resolve_order _ _ _).
    + apply emits_start_in_order, Hp.
    + apply emits_ret.
Qed.

Lemma emits_stop_in_order (p : Event -> bool) (order : list ServiceWrapper)
    (remaining : Duration) (rs : list ServiceRecord) (failures : list error) :
  accepts_hooks p -> emits p (stop_in_order order remaining rs failures).
Proof.
  intro Hp. revert remaining rs failures.
  induction order as [|d order IH]; intros remaining rs failures; simpl.
  - apply emits_ret.
  - apply emits_bind; [apply emits_emit, Hp; reflexivity | intros _].
    destruct (stopFunc d) as [notifications took err|notifications];
      (apply emits_bind; [apply emits_notify_all, Hp | intros _]).
    + destruct (took <=? remaining)%Z; [destruct err|]; apply IH.
    + apply IH.
Qed.

Lemma emits_StopAll (p : Event -> bool) (deadline : Duration) (sm : ServiceManager) :
  accepts_hooks p -> emits p (StopAll deadline sm).
Proof.
  intro Hp. unfold StopAll.
  apply emits_bind; [apply emits_stop_in_order, Hp | intros r; apply emits_ret].
Qed.

Lemma services_event_accepts_hooks : accepts_hooks services_event.
Proof. intros e He. destruct e; try discriminate; reflexivity. Qed.

(** Walks through a sequence of calls of [main], one [bind] and one case
    distinction at a time. *)
Ltac emits_walk :=
  repeat first
    [ apply emits_ret
    | apply emits_os_Exit
    | apply emits_emit; reflexivity
    | apply emits_StartAll; apply services_event_accepts_hooks
    | apply emits_StopAll; apply services_event_accepts_hooks
    | apply emits_bind; [|intro]
    | match goal with
      | |- emits _ (match ?x with _ => _ end) => destruct x
      | |- emits _ (if ?x then _ else _) => destruct x
      end ].

Lemma emits_shutdown_with (env : Env) (d : Duration) (sm : ServiceManager) :
  emits services_event (shutdown_with env d sm).
Proof.
  unfold shutdown_with, log_Info, log_Error, store_Close. emits_walk.
Qed.

Lemma emits_run_services (env : Env) : emits services_event (run_services env).
Proof.
  unfold run_services, log_Info, log_Error, logging_NewMonitoringService,
    commandHandler_SetupCommands, shutdown.
  repeat first [ apply emits_shutdown_with | progress emits_walk ].
Qed.

(** C3 as stated fails: with [env_write_error] the write of the heartbeat
    returns an error, and the whole run of [main] logs no error. *)
Lemma heartbeat_failure_not_reported :
  ~ heartbeat_failure_reported env_write_error (trace (snd (main env_write_error w0))).
Proof.
  intro H. destruct H as [msg Hin].
  - exists (sample_clock 1), (ErrExternal "disk full"). split.
    + vm_compute. auto.
    + reflexivity.
  - vm_compute in Hin.
    repeat (destruct Hin as [Hin|Hin]; [discriminate|]). exact Hin.
Qed.

Lemma main_ignores_SetHeartbeat_answer (env : Env) (answer : Time -> option error) (w : World) :
  main (with_SetHeartbeat answer env) w = main env w.
Proof. destruct env. reflexivity. Qed.

Lemma length_stamp (env : Env) (targets : list (string * string * string)) (n : nat) :
  List.length (stamp env n targets) = List.length targets.
Proof.
  revert n. induction targets as [|[[g u] a] targets IH]; intro n; simpl.
  - reflexivity.
  - rewrite IH. reflexivity.
Qed.

Lemma reconcile_ends_with_heartbeat (env : Env) (w : World) :
  store_is_nil env = false ->
  exists pass n,
    reconcile env w =
    (Ret tt, {| trace := trace w ++ pass ++ [EvSetHeartbeat (clock env n)]; ticks := S n |})
    /\ n = ticks w + staleness_test_readings env + List.length (upserts pass)
    /\ forallb (fun e => negb (is_heartbeat_write e) && negb (is_start_hook e)) pass = true.
Proof.
  intro Hstore. unfold staleness_test_readings.
  destruct (GetHeartbeat env) as [[lastHB ok] [err|]] eqn:Hhb.
  - exists [EvGetHeartbeat; EvLog LevelError (MsgHeartbeatReadFailed err)], (ticks w).
    rewrite (reconcile_read_error env w Hstore Hhb).
    split; [reflexivity | split; [|reflexivity]].
    destruct ok; simpl; lia.
  - destruct (negb ok || (Sub (clock env (ticks w)) lastHB >? 30 * Minute)%Z) eqn:Hstale.
    + exists ([EvGetHeartbeat; EvLog LevelInfo MsgDowntimeDetected]
              ++ guilds_events env (pass_start ok w) (configured_guilds env)
              ++ [EvLog LevelInfo MsgRefreshCompleted]),
             (pass_start ok w + List.length (refresh_targets env)).
      rewrite (reconcile_taken env w Hstore Hhb Hstale). split; [|split].
      * rewrite <- !app_assoc. reflexivity.
      * rewrite !upserts_app, upserts_guilds_events. simpl. rewrite app_nil_r.
        fold (refresh_targets env). rewrite length_stamp.
        unfold pass_start. destruct ok; lia.
      * simpl. rewrite forallb_app. simpl. rewrite andb_true_r.
        apply forallb_forall. intros e He.
        pose proof (guilds_events_pass env (configured_guilds env) (pass_start ok w)) as Hpass.
        rewrite Forall_forall in Hpass. specialize (Hpass e He).
        destruct e; try discriminate; reflexivity.
    + apply orb_false_elim in Hstale. destruct Hstale as [Hok Hage].
      apply negb_false_iff in Hok. subst ok.
      exists [EvGetHeartbeat; EvLog LevelInfo MsgNoDowntime], (S (ticks w)).
      rewrite (reconcile_skipped env w Hstore Hhb Hage).
      split; [reflexivity | split; [simpl; lia | reflexivity]].
Qed.

(** C3, as the code has it.  When the store is not nil, [reconcile] returns
    and the last thing it does is to write a fresh heartbeat: the timestamp
    written is the reading of the clock made for the write, which is the
    newest reading, coming after the reading of the staleness test and the
    readings that stamped the upserts.  What precedes the write holds no
    other heartbeat write and no start hook; what [main] does after it holds
    no call of the reconciliation, so every start hook comes after the write
    and the write is the only one.  What the write answers is dropped: the
    run of [main] is the same for every answer, so a failure is neither
    logged nor fatal. *)
Theorem heartbeat_written_after_pass_before_services (env : Env) (w : World) :
  store_is_nil env = false ->
  exists pass t post n,
    t = clock env n
    /\ n = ticks w + staleness_test_readings env + List.length (upserts pass)
    /\ ticks (snd (reconcile env w)) = S n
    /\ emitted (reconcile env) w = pass ++ [EvSetHeartbeat t]
    /\ returns (reconcile env) w
    /\ emitted (main env) w = pass ++ [EvSetHeartbeat t] ++ post
    /\ forallb (fun e => negb (is_heartbeat_write e) && negb (is_start_hook e)) pass = true
    /\ forallb services_event post = true
    /\ forall answer, main (with_SetHeartbeat answer env) w = main env w.
Proof.
  intro Hstore.
  destruct (reconcile_ends_with_heartbeat env w Hstore) as (pass & n & Hrun & Hn & Hpass).
  destruct (emits_run_services env
              {| trace := trace w ++ pass ++ [EvSetHeartbeat (clock env n)]; ticks := S n |})
    as (post & Hpost & Hservices).
  exists pass, (clock env n), post, n.
  refine (conj _ (conj _ (conj _ (conj _ (conj _ (conj _ (conj _ (conj _ _)))))))).
  - reflexivity.
  - exact Hn.
  - rewrite Hrun. reflexivity.
  - apply reconcile_emitted with (n := S n). exact Hrun.
  - exists tt. rewrite Hrun. reflexivity.
  - apply emitted_spec. unfold main. erewrite bind_Ret by exact Hrun.
    rewrite Hpost. simpl. rewrite <- !app_assoc. reflexivity.
  - exact Hpass.
  - exact Hservices.
  - intro answer. apply main_ignores_SetHeartbeat_answer.
Qed.

Lemma heartbeat_written_after_pass_before_services_witness :
  exists pass t post n,
    t = clock env_write_error n
    /\ n = ticks w0 + staleness_test_readings env_write_error + List.length (upserts pass)
    /\ ticks (snd (reconcile env_write_error w0)) = S n
    /\ emitted (reconcile env_write_error) w0 = pass ++ [EvSetHeartbeat t]
    /\ returns (reconcile env_write_error) w0
    /\ emitted (main env_write_error) w0 = pass ++ [EvSetHeartbeat t] ++ post
    /\ forallb (fun e => negb (is_heartbeat_write e) && negb (is_start_hook e)) pass = true
    /\ forallb services_event post = true
    /\ forall answer, main (with_SetHeartbeat answer env_write_error) w0 = main env_write_error w0.
Proof.
  exact (@heartbeat_written_after_pass_before_services env_write_error w0 eq_refl).
Defined.

(** ** The deferred shutdown *)

Lemma notify_all_run (notifications : list string) (w : World) :
  notify_all notifications w =
  (Ret tt, {| trace := trace w ++ map EvNotify notifications; ticks := ticks w |}).
Proof.
  unfold notify_all. revert w.
  induction notifications as [|text notifications IH]; intro w; simpl.
  - unfold ret. rewrite app_nil_r, world_eta. reflexivity.
  - erewrite bind_Ret by apply emit_run. rewrite IH. simpl.
    rewrite <- app_assoc. reflexivity.
Qed.

Lemma call_hook_run (ev : Event) (h : HookResult) (w : World) :
  call_hook ev h w =
  match h with
  | Returned notifications took err =>
      (Ret (took, err),
       {| trace := trace w ++ ev :: map EvNotify notifications; ticks := ticks w |})
  | NeverReturns notifications =>
      (Hang, {| trace := trace w ++ ev :: map EvNotify notifications; ticks := ticks w |})
  end.
Proof.
  unfold call_hook. erewrite bind_Ret by apply emit_run.
  destruct h as [notifications took err|notifications];
    (erewrite bind_Ret by apply notify_all_run); simpl;
    rewrite <- app_assoc; reflexivity.
Qed.

Lemma forallb_stop_sequence_notifications (notifications : list string) :
  forallb stop_sequence_event (map EvNotify notifications) = true.
Proof. induction notifications; simpl; auto. Qed.

(** The stop sequence returns, whatever the hooks do, and it has called the
    stop hook of every service of the order. *)
Lemma stop_in_order_run (order : list ServiceWrapper) (remaining : Duration)
    (rs : list ServiceRecord) (failures : list error) (w : World) :
  exists stops r,
    stop_in_order order remaining rs failures w
    = (Ret r, {| trace := trace w ++ stops; ticks := ticks w |})
    /\ forallb stop_sequence_event stops = true
    /\ forall d, In d order -> In (EvStopHook (name d)) stops.
Proof.
  revert remaining rs failures w.
  induction order as [|d order IH]; intros remaining rs failures w.
  - exists [], (rs, failures). simpl. unfold ret. rewrite app_nil_r, world_eta.
    split; [reflexivity | split; [reflexivity | intros d []]].
  - cbn [stop_in_order]. erewrite bind_Ret by apply emit_run.
    set (w1 := {| trace := trace w ++ [EvStopHook (name d)]; ticks := ticks w |}).
    assert (Hrest : forall notifications remaining' rs' failures',
               exists stops r,
                 (notify_all notifications ;;
                  stop_in_order order remaining' rs' failures') w1
                 = (Ret r, {| trace := trace w ++ stops; ticks := ticks w |})
                 /\ forallb stop_sequence_event stops = true
                 /\ forall d', In d' (d :: order) -> In (EvStopHook (name d')) stops).
    { intros notifications remaining' rs' failures'.
      erewrite bind_Ret by apply notify_all_run.
      match goal with
      | |- context [stop_in_order order remaining' rs' failures' ?w2] =>
          destruct (IH remaining' rs' failures' w2) as (stops & r & Hrun & Hstops & Hall)
      end.
      exists ((EvStopHook (name d) :: map EvNotify notifications) ++ stops), r.
      split; [|split].
      - rewrite Hrun. unfold w1. cbn [trace ticks]. rewrite <- !app_assoc. reflexivity.
      - rewrite forallb_app, Hstops. simpl.
        rewrite forallb_stop_sequence_notifications. reflexivity.
      - intros d' [<-|Hd'].
        + left. reflexivity.
        + apply in_or_app. right. apply Hall, Hd'. }
    destruct (stopFunc d) as [notifications took err|notifications].
    + unfold bind at 1.
      destruct (notify_all notifications w1) as [[[]|c|] w2] eqn:Hnotify;
        rewrite notify_all_run in Hnotify; inversion Hnotify; subst w2; clear Hnotify.
      destruct (took <=? remaining)%Z; [destruct err|];
        match goal with
        | |- context [stop_in_order order ?b ?rs1 ?fs1 _] =>
            pose proof (Hrest notifications b rs1 fs1) as H;
            erewrite bind_Ret in H by apply notify_all_run; exact H
        end.
    + apply Hrest.
Qed.

(** C6. The deferred function, with a store that is not nil.  Either it
    returns, and then what it did is: the opening log line, the stop
    sequence (stop hooks and what the services notify), at most a log line,
    and [store.Close()] as the last call, with the stop hook of every
    started service called in the stop sequence, whatever the hooks
    returned; or a stop hook never returns, and the store is not closed at
    all.  It returns whenever every stop hook does. *)
Theorem store_closed_after_stop_hooks (env : Env) (sm : ServiceManager) (w : World) :
  store_is_nil env = false ->
  exists stops logs,
    forallb stop_sequence_event stops = true
    /\ forallb is_log logs = true
    /\ ((returns (shutdown env sm) w
         /\ emitted (shutdown env sm) w
            = [EvLog LevelInfo MsgShuttingDown] ++ stops ++ logs ++ [EvStoreClose]
         /\ forall d, In d (startOrder sm) -> In (EvStopHook (name d)) stops)
        \/ (fst (shutdown env sm w) = Hang
            /\ emitted (shutdown env sm) w = [EvLog LevelInfo MsgShuttingDown] ++ stops))
    /\ ((forall d, In d (startOrder sm) -> stop_hook_returns d) ->
        returns (shutdown env sm) w).
Proof.
  intro Hstore.
  set (w1 := {| trace := trace w ++ [EvLog LevelInfo MsgShuttingDown]; ticks := ticks w |}).
  destruct (stop_in_order_run (rev (startOrder sm)) (StopAll_deadline env) (services sm) [] w1)
    as (stops & r & Hstop & Hstops & Hall).
  set (logs := match snd r with
               | [] => []
               | _ :: _ => [EvLog LevelError (MsgStopFailed (Aggregate (snd r)))]
               end).
  assert (Hrun : shutdown env sm w =
                 (Ret tt,
                  {| trace := trace w ++ [EvLog LevelInfo MsgShuttingDown]
                                      ++ stops ++ logs ++ [EvStoreClose];
                     ticks := ticks w |})).
  { unfold shutdown, shutdown_with, log_Info.
    erewrite bind_Ret by apply emit_run. fold w1.
    unfold StopAll, bind at 1 2. rewrite Hstop.
    unfold ret at 1. cbn [snd fst]. rewrite Hstore.
    unfold store_Close, log_Error, emit, bind, ret, logs, w1.
    destruct (snd r); cbn [trace ticks fst snd]; rewrite <- !app_assoc; reflexivity. }
  assert (Hret : returns (shutdown env sm) w).
  { exists tt. rewrite Hrun. reflexivity. }
  exists stops, logs.
  split; [exact Hstops | split; [unfold logs; destruct (snd r); reflexivity | split]].
  - left. split; [exact Hret | split].
    + apply emitted_spec. rewrite Hrun. reflexivity.
    + intros d Hd. apply Hall, in_rev. rewrite rev_involutive. exact Hd.
  - intros _. exact Hret.
Qed.

Lemma store_closed_after_stop_hooks_witness :
  exists stops logs,
    forallb stop_sequence_event stops = true
    /\ forallb is_log logs = true
    /\ ((returns (shutdown env_stale (started_manager env_stale)) w0
         /\ emitted (shutdown env_stale (started_manager env_stale)) w0
            = [EvLog LevelInfo MsgShuttingDown] ++ stops ++ logs ++ [EvStoreClose]
         /\ forall d, In d (startOrder (started_manager env_stale)) ->
                      In (EvStopHook (name d)) stops)
        \/ (fst (shutdown env_stale (started_manager env_stale) w0) = Hang
            /\ emitted (shutdown env_stale (started_manager env_stale)) w0
               = [EvLog LevelInfo MsgShuttingDown] ++ stops))
    /\ ((forall d, In d (startOrder (started_manager env_stale)) -> stop_hook_returns d) ->
        returns (shutdown env_stale (started_manager env_stale)) w0).
Proof.
  exact (@store_closed_after_stop_hooks env_stale (started_manager env_stale) w0 eq_refl).
Defined.

(** ** The start order *)

Lemma existsb_has_name (id : string) (l : list ServiceWrapper) :
  existsb (has_name id) l = true <-> In id (map name l).
Proof.
  rewrite existsb_exists, in_map_iff. unfold has_name.
  split; intros (d & H1 & H2).
  - exists d. apply String.eqb_eq in H2. split; assumption.
  - exists d. split; [assumption | apply String.eqb_eq; assumption].
Qed.

Lemma is_ready_spec (placed : list ServiceWrapper) (d : ServiceWrapper) :
  is_ready placed d = true <-> forall dep, In dep (dependencies d) -> In dep (map name placed).
Proof.
  unfold is_ready. rewrite forallb_forall.
  split; intros H dep Hdep; apply existsb_has_name, H, Hdep.
Qed.

(** What [pick_next] picks: a ready candidate, of a priority strictly better
    than the ready candidates registered before it and at least as good as
    the ready candidates registered after it. *)
Lemma pick_next_spec (placed candidates : list ServiceWrapper) (d : ServiceWrapper) :
  pick_next placed candidates = Some d ->
  exists l1 l2,
    candidates = l1 ++ d :: l2
    /\ is_ready placed d = true
    /\ (forall d', In d' l1 -> is_ready placed d' = true ->
        priority_rank (priority d) < priority_rank (priority d'))
    /\ (forall d', In d' l2 -> is_ready placed d' = true ->
        priority_rank (priority d) <= priority_rank (priority d')).
Proof.
  revert d. induction candidates as [|c candidates IH]; intros d Hpick; simpl in Hpick.
  - discriminate.
  - destruct (pick_next placed candidates) as [best|] eqn:Hbest.
    + destruct (IH best eq_refl) as (l1 & l2 & Hc & Hready & Hbefore & Hafter).
      destruct (is_ready placed c) eqn:Hrc; simpl in Hpick.
      * destruct (priority_rank (priority c) <=? priority_rank (priority best))%nat eqn:Hle;
          inversion Hpick; subst d; clear Hpick.
        -- apply Nat.leb_le in Hle.
           exists [], candidates. split; [reflexivity | split; [exact Hrc | split]].
           ++ intros d' [].
           ++ intros d' Hd' Hrd'. rewrite Hc in Hd'.
              apply in_app_or in Hd'. destruct Hd' as [Hd'|[<-|Hd']].
              ** specialize (Hbefore d' Hd' Hrd'). lia.
              ** exact Hle.
              ** specialize (Hafter d' Hd' Hrd'). lia.
        -- apply Nat.leb_gt in Hle.
           exists (c :: l1), l2. split; [rewrite Hc; reflexivity | split; [exact Hready | split]].
           ++ intros d' [<-|Hd'] Hrd'; [exact Hle | apply Hbefore; assumption].
           ++ exact Hafter.
      * inversion Hpick; subst d; clear Hpick.
        exists (c :: l1), l2. split; [rewrite Hc; reflexivity | split; [exact Hready | split]].
        -- intros d' [<-|Hd'] Hrd'; [congruence | apply Hbefore; assumption].
        -- exact Hafter.
    + destruct (is_ready placed c) eqn:Hrc; [|discriminate].
      inversion Hpick; subst d; clear Hpick.
      exists [], candidates. split; [reflexivity | split; [exact Hrc | split]].
      * intros d' [].
      * intros d' Hd' Hrd'. exfalso.
        clear IH. revert Hbest. induction candidates as [|c' candidates IH']; [destruct Hd'|].
        simpl. destruct (pick_next placed candidates) eqn:Hp.
        -- destruct (_ && _); discriminate.
        -- destruct Hd' as [<-|Hd'].
           ++ rewrite Hrd'. discriminate.
           ++ destruct (is_ready placed c'); [discriminate|]. intros _.
              apply IH'; [exact Hd' | reflexivity].
Qed.

Lemma filter_out_picked (l1 l2 : list ServiceWrapper) (d : ServiceWrapper) :
  NoDup (map name (l1 ++ d :: l2)) ->
  filter (fun d' => negb (has_name (name d) d')) (l1 ++ d :: l2) = l1 ++ l2.
Proof.
  intro Hnodup.
  assert (Hkeep : forall l, ~ In (name d) (map name l) ->
                            filter (fun d' => negb (has_name (name d) d')) l = l).
  { induction l as [|x l IH]; intro Hnot; simpl.
    - reflexivity.
    - unfold has_name at 1. destruct (String.eqb_spec (name x) (name d)) as [E|E]; simpl.
      + exfalso. apply Hnot. left. exact E.
      + rewrite IH; [reflexivity|]. intro H. apply Hnot. right. exact H. }
  rewrite map_app in Hnodup. simpl in Hnodup.
  pose proof (NoDup_remove_2 _ _ _ Hnodup) as Hnot.
  rewrite filter_app. simpl. unfold has_name at 2. rewrite String.eqb_refl. simpl.
  rewrite !Hkeep; [reflexivity | |]; intro H; apply Hnot, in_or_app; auto.
Qed.

Lemma resolve_order_spec (rounds : nat) (placed remaining order : list ServiceWrapper) :
  NoDup (map name remaining) ->
  resolve_order rounds placed remaining = inl order ->
  exists picked,
    order = placed ++ picked
    /\ Permutation picked remaining
    /\ forall l1 d l2, picked = l1 ++ d :: l2 ->
       forall dep, In dep (dependencies d) -> In dep (map name (placed ++ l1)).
Proof.
  revert placed remaining.
  induction rounds as [|rounds IH]; intros placed remaining Hnodup Hres;
    destruct remaining as [|x xs]; simpl in Hres; try discriminate.
  - inversion Hres; subst. exists []. rewrite app_nil_r.
    split; [reflexivity | split; [constructor|]]. intros [|] ? ? H; discriminate.
  - inversion Hres; subst. exists []. rewrite app_nil_r.
    split; [reflexivity | split; [constructor|]]. intros [|] ? ? H; discriminate.
  - change (match pick_next placed (x :: xs) with
            | Some d => resolve_order rounds (placed ++ [d])
                          (filter (fun d' => negb (has_name (name d) d')) (x :: xs))
            | None => inr (CyclicDependency (map name (x :: xs)))
            end = inl order) in Hres.
    destruct (pick_next placed (x :: xs)) as [d|] eqn:Hpick; [|discriminate].
    destruct (pick_next_spec _ _ Hpick) as (l1 & l2 & Hsplit & Hready & _ & _).
    rewrite Hsplit in Hres, Hnodup |- *.
    rewrite (filter_out_picked _ _ _ Hnodup) in Hres.
    assert (Hnodup' : NoDup (map name (l1 ++ l2))).
    { rewrite map_app in Hnodup |- *. simpl in Hnodup.
      exact (NoDup_remove_1 _ _ _ Hnodup). }
    destruct (IH _ _ Hnodup' Hres) as (picked & Horder & Hperm & Hdeps).
    exists (d :: picked). split; [|split].
    + rewrite Horder, <- app_assoc. reflexivity.
    + apply Permutation_cons_app. exact Hperm.
    + intros k1 e k2 Hk dep Hdep. destruct k1 as [|k k1]; simpl in Hk.
      * inversion Hk; subst e k2. rewrite app_nil_r.
        apply (proj1 (is_ready_spec placed d) Hready). exact Hdep.
      * inversion Hk; subst k picked.
        specialize (Hdeps k1 e k2 eq_refl dep Hdep).
        rewrite <- app_assoc in Hdeps. exact Hdeps.
Qed.

Lemma StartAll_main_events (env : Env) (w : World) :
  emitted (StartAll (registered_manager env)) w = start_events env.
Proof.
  apply emitted_spec.
  change (StartAll (registered_manager env) w)
    with (start_in_order [monitoringWrapper env; automodWrapper env]
            (registered_manager env) w).
  unfold start_events, automod_start_events. cbn [start_in_order].
  pose proof (call_hook_run (EvStartHook "monitoring") (monitoringService_Start env) w) as Hmon.
  change (name (monitoringWrapper env)) with "monitoring".
  change (startFunc (monitoringWrapper env)) with (monitoringService_Start env).
  change (name (automodWrapper env)) with "automod".
  change (startFunc (automodWrapper env)) with (automod_hook (automodService_Start env)).
  destruct (monitoringService_Start env) as [notifications took [cause|]|notifications].
  - erewrite bind_Ret by exact Hmon. reflexivity.
  - erewrite bind_Ret by exact Hmon. cbn [snd].
    match goal with
    | |- context [bind (call_hook ?ev ?h) ?k ?w1] =>
        pose proof (call_hook_run ev h w1) as Hauto
    end.
    unfold automod_hook in *.
    destruct (automodService_Start env) as [[ns took']|].
    + erewrite bind_Ret by exact Hauto. cbn. rewrite <- !app_assoc. reflexivity.
    + erewrite bind_Hang by exact Hauto. cbn. rewrite <- !app_assoc. reflexivity.
  - erewrite bind_Hang by exact Hmon. reflexivity.
Qed.

Lemma started_hooks_notifications (notifications : list string) :
  started_hooks (map EvNotify notifications) = [].
Proof. induction notifications; simpl; auto. Qed.

Lemma started_hooks_app (l1 l2 : list Event) :
  started_hooks (l1 ++ l2) = started_hooks l1 ++ started_hooks l2.
Proof. apply flat_map_app. Qed.

Lemma started_hooks_start (n : string) (l : list Event) :
  started_hooks (EvStartHook n :: l) = n :: started_hooks l.
Proof. reflexivity. Qed.

Lemma started_hooks_none (evs : list Event) :
  forallb no_start_hook evs = true -> started_hooks evs = [].
Proof.
  unfold started_hooks.
  induction evs as [|e evs IH]; simpl; intro H; [reflexivity|].
  apply andb_true_iff in H. destruct H as [He Hevs].
  rewrite (IH Hevs). destruct e; try reflexivity; discriminate.
Qed.

(** *** The registration order *)

Lemma before_app_r (l1 l2 : list ServiceWrapper) (x y : ServiceWrapper) :
  before l2 x y -> before (l1 ++ l2) x y.
Proof.
  intro H. induction l1 as [|z l1 IH]; simpl; [exact H | apply before_later, IH].
Qed.

Lemma before_split (l1 l2 : list ServiceWrapper) (x y : ServiceWrapper) :
  In y l2 -> before (l1 ++ x :: l2) x y.
Proof. intro H. apply before_app_r, before_here, H. Qed.

(** Taking a service out of a list keeps the order of the others. *)
Lemma before_insert (l1 l2 : list ServiceWrapper) (z x y : ServiceWrapper) :
  before (l1 ++ l2) x y -> before (l1 ++ z :: l2) x y.
Proof.
  induction l1 as [|h l1 IH]; simpl; intro H.
  - apply before_later, H.
  - inversion H as [l x' y' Hin | l z' x' y' Hrest]; subst.
    + apply before_here. apply in_app_or in Hin. apply in_or_app.
      destruct Hin as [Hin|Hin]; [left; exact Hin | right; right; exact Hin].
    + apply before_later, IH, Hrest.
Qed.

(** *** The resolved order *)

(** Every tie of the resolved order is broken by priority, then by the
    order of registration. *)
Lemma resolve_order_priority (ds : list ServiceWrapper) (rounds : nat)
    (placed remaining order : list ServiceWrapper) :
  NoDup (map name remaining) ->
  (forall x y, before remaining x y -> before ds x y) ->
  resolve_order rounds placed remaining = inl order ->
  exists picked,
    order = placed ++ picked
    /\ forall l1 d l2, picked = l1 ++ d :: l2 ->
       forall d', In d' l2 -> is_ready (placed ++ l1) d' = true ->
       priority_rank (priority d) < priority_rank (priority d')
       \/ (priority_rank (priority d) = priority_rank (priority d') /\ before ds d d').
Proof.
  revert placed remaining.
  induction rounds as [|rounds IH]; intros placed remaining Hnodup Hsub Hres;
    destruct remaining as [|x xs]; simpl in Hres; try discriminate.
  - inversion Hres; subst. exists []. rewrite app_nil_r.
    split; [reflexivity|]. intros [|] ? ? H; discriminate.
  - inversion Hres; subst. exists []. rewrite app_nil_r.
    split; [reflexivity|]. intros [|] ? ? H; discriminate.
  - change (match pick_next placed (x :: xs) with
            | Some d => resolve_order rounds (placed ++ [d])
                          (filter (fun d' => negb (has_name (name d) d')) (x :: xs))
            | None => inr (CyclicDependency (map name (x :: xs)))
            end = inl order) in Hres.
    destruct (pick_next placed (x :: xs)) as [d|] eqn:Hpick; [|discriminate].
    destruct (pick_next_spec _ _ Hpick) as (r1 & r2 & Hsplit & Hready & Hbefore & Hafter).
    rewrite Hsplit in Hres, Hnodup, Hsub.
    rewrite (filter_out_picked _ _ _ Hnodup) in Hres.
    assert (Hnodup' : NoDup (map name (r1 ++ r2))).
    { rewrite map_app in Hnodup |- *. simpl in Hnodup.
      exact (NoDup_remove_1 _ _ _ Hnodup). }
    assert (Hsub' : forall a b, before (r1 ++ r2) a b -> before ds a b).
    { intros a b Hab. apply Hsub, before_insert, Hab. }
    destruct (@resolve_order_spec _ _ _ _ Hnodup' Hres) as (picked0 & Horder0 & Hperm & _).
    destruct (IH _ _ Hnodup' Hsub' Hres) as (picked & Horder & Hties).
    assert (picked0 = picked) by (apply (app_inv_head (placed ++ [d])); congruence).
    subst picked0.
    exists (d :: picked). split.
    + rewrite Horder, <- app_assoc. reflexivity.
    + intros k1 e k2 Hk d' Hd' Hrd'. destruct k1 as [|k k1]; simpl in Hk.
      * inversion Hk; subst e k2. rewrite app_nil_r in Hrd'.
        assert (Hin : In d' (r1 ++ r2)) by (eapply Permutation_in; [exact Hperm | exact Hd']).
        apply in_app_or in Hin. destruct Hin as [Hin|Hin].
        -- left. apply Hbefore; assumption.
        -- specialize (Hafter d' Hin Hrd').
           destruct (Nat.eq_dec (priority_rank (priority d)) (priority_rank (priority d')))
             as [E|E].
           ++ right. split; [exact E | apply Hsub, before_split, Hin].
           ++ left. lia.
      * inversion Hk; subst k picked.
        apply (Hties k1 e k2 eq_refl d' Hd').
        rewrite <- app_assoc. exact Hrd'.
Qed.

Lemma pick_next_some (placed candidates : list ServiceWrapper) (d : ServiceWrapper) :
  In d candidates -> is_ready placed d = true -> pick_next placed candidates <> None.
Proof.
  induction candidates as [|c candidates IH]; intros Hin Hready; [destruct Hin|].
  simpl. destruct (pick_next placed candidates) as [best|] eqn:Hbest.
  - destruct (_ && _); discriminate.
  - destruct Hin as [<-|Hin].
    + rewrite Hready. discriminate.
    + exfalso. apply (IH Hin Hready). reflexivity.
Qed.

Lemma lowest_level (level : string -> nat) (l : list ServiceWrapper) :
  l <> [] ->
  exists d, In d l /\ forall d', In d' l -> level (name d) <= level (name d').
Proof.
  induction l as [|x l IH]; intro Hne; [contradiction|].
  destruct l as [|y l].
  - exists x. split; [left; reflexivity|]. intros d' [<-|[]]. lia.
  - destruct IH as (m & Hm & Hmin); [discriminate|].
    destruct (le_lt_dec (level (name x)) (level (name m))) as [Hle|Hlt].
    + exists x. split; [left; reflexivity|].
      intros d' [<-|Hd']; [lia | specialize (Hmin d' Hd'); lia].
    + exists m. split; [right; exact Hm|].
      intros d' [<-|Hd']; [lia | apply Hmin, Hd'].
Qed.

(** With an acyclic dependency graph every round finds a service to place,
    and the resolution ends with an order. *)
Lemma resolve_order_total (ds : list ServiceWrapper) (level : string -> nat) :
  (forall d dep, In d ds -> In dep (dependencies d) ->
                 In dep (map name ds) /\ level dep < level (name d)) ->
  forall rounds placed remaining,
    NoDup (map name remaining) ->
    (forall d, In d remaining -> In d ds) ->
    (forall id, In id (map name ds) ->
                In id (map name placed) \/ In id (map name remaining)) ->
    List.length remaining <= rounds ->
    exists order, resolve_order rounds placed remaining = inl order.
Proof.
  intro Hacyclic.
  induction rounds as [|rounds IH]; intros placed remaining Hnodup Hsub Hcover Hlen;
    destruct remaining as [|x xs]; simpl in Hlen; try lia;
    try (exists placed; reflexivity).
  change (exists order,
             match pick_next placed (x :: xs) with
             | Some d => resolve_order rounds (placed ++ [d])
                           (filter (fun d' => negb (has_name (name d) d')) (x :: xs))
             | None => inr (CyclicDependency (map name (x :: xs)))
             end = inl order).
  destruct (pick_next placed (x :: xs)) as [d|] eqn:Hpick.
  - destruct (pick_next_spec _ _ Hpick) as (r1 & r2 & Hsplit & _).
    rewrite Hsplit in Hnodup, Hsub, Hcover |- *.
    rewrite (filter_out_picked _ _ _ Hnodup).
    apply IH.
    + rewrite map_app in Hnodup |- *. simpl in Hnodup.
      exact (NoDup_remove_1 _ _ _ Hnodup).
    + intros d' Hd'. apply Hsub. apply in_app_or in Hd'. apply in_or_app.
      destruct Hd' as [Hd'|Hd']; [left; exact Hd' | right; right; exact Hd'].
    + intros id Hid. rewrite !map_app, !in_app_iff. simpl.
      destruct (Hcover id Hid) as [Hp|Hr]; [left; left; exact Hp|].
      rewrite map_app, in_app_iff in Hr. simpl in Hr.
      destruct Hr as [Hr|[Hr|Hr]]; [right; left; exact Hr | left; right; left; exact Hr
                                   | right; right; exact Hr].
    + assert (Hl : List.length (x :: xs) = S (List.length (r1 ++ r2))).
      { rewrite Hsplit, !length_app. simpl. lia. }
      simpl in Hl. lia.
  - exfalso.
    destruct (@lowest_level level (x :: xs)) as (m & Hm & Hmin); [discriminate|].
    apply (@pick_next_some placed (x :: xs) m Hm); [|exact Hpick].
    apply is_ready_spec. intros dep Hdep.
    destruct (Hacyclic m dep (Hsub m Hm) Hdep) as [Hknown Hbelow].
    destruct (Hcover dep Hknown) as [Hp|Hr]; [exact Hp|].
    exfalso. apply in_map_iff in Hr. destruct Hr as (d' & Hname & Hd').
    specialize (Hmin d' Hd'). rewrite Hname in Hmin. lia.
Qed.

Lemma first_unknown_dependency_none (all ds : list ServiceWrapper) :
  (forall d dep, In d ds -> In dep (dependencies d) -> In dep (map name all)) ->
  first_unknown_dependency all ds = None.
Proof.
  induction ds as [|d ds IH]; intro Hknown; simpl; [reflexivity|].
  destruct (find _ (dependencies d)) as [missing|] eqn:Hfind.
  - exfalso. apply find_some in Hfind. destruct Hfind as [Hin Hneg].
    apply negb_true_iff in Hneg.
    assert (Hex : existsb (has_name missing) all = true).
    { apply existsb_has_name. apply (Hknown d missing); [left; reflexivity | exact Hin]. }
    congruence.
  - apply IH. intros d' dep Hd' Hdep. apply (Hknown d' dep); [right; exact Hd' | exact Hdep].
Qed.

Lemma acyclic_resolves (ds : list ServiceWrapper) :
  NoDup (map name ds) ->
  acyclic_dependencies ds ->
  first_unknown_dependency ds ds = None
  /\ exists order, resolve_order (List.length ds) [] ds = inl order.
Proof.
  intros Hnodup [level Hacyclic]. split.
  - apply first_unknown_dependency_none. intros d dep Hd Hdep.
    apply (Hacyclic d dep Hd Hdep).
  - apply (@resolve_order_total ds level Hacyclic); auto.
Qed.

Lemma resolved_order (ds order : list ServiceWrapper) :
  NoDup (map name ds) ->
  resolve_order (List.length ds) [] ds = inl order ->
  Permutation order ds /\ dependencies_first order /\ priority_then_registration ds order.
Proof.
  intros Hnodup Hres.
  destruct (@resolve_order_spec _ _ _ _ Hnodup Hres) as (picked & Horder & Hperm & Hdeps).
  destruct (@resolve_order_priority ds _ _ _ _ Hnodup (fun x y H => H) Hres)
    as (picked' & Horder' & Hties).
  simpl in Horder, Horder'. subst picked picked'.
  split; [exact Hperm | split].
  - intros l1 d l2 Hsplit dep Hdep. exact (Hdeps l1 d l2 Hsplit dep Hdep).
  - intros l1 d l2 Hsplit d' Hd' Hrd'. exact (Hties l1 d l2 Hsplit d' Hd' Hrd').
Qed.

(** *** The start hooks *)

(** The start hooks are called in the order given, up to and including the
    first hook that fails or never returns. *)
Lemma start_in_order_hooks (order : list ServiceWrapper) (sm : ServiceManager) (w : World) :
  started_hooks (emitted (start_in_order order sm) w) = hooks_called order.
Proof.
  revert sm w. induction order as [|d order IH]; intros sm w.
  - rewrite (@emitted_spec _ _ _ []); [reflexivity|].
    simpl. rewrite app_nil_r. reflexivity.
  - pose proof (call_hook_run (EvStartHook (name d)) (startFunc d) w) as Hcall.
    cbn [hooks_called].
    destruct (startFunc d) as [notifications took [cause|]|notifications] eqn:Hstart.
    + erewrite emitted_spec.
      2:{ cbn [start_in_order]. rewrite Hstart.
          erewrite bind_Ret by exact Hcall. cbn [snd trace]. reflexivity. }
      rewrite started_hooks_start, started_hooks_notifications. reflexivity.
    + set (sm1 := {| services := set_state (name d) StateRunning None (services sm);
                     startOrder := startOrder sm ++ [d] |}).
      set (w1 := {| trace := trace w ++ EvStartHook (name d) :: map EvNotify notifications;
                    ticks := ticks w |}).
      pose proof (IH sm1 w1) as Hrest.
      destruct (@emits_start_in_order (fun _ => true) order sm1 (fun _ _ => eq_refl) w1)
        as (evs & Hevs & _).
      rewrite (@emitted_spec _ _ _ _ Hevs) in Hrest.
      erewrite emitted_spec.
      2:{ cbn [start_in_order]. rewrite Hstart.
          erewrite bind_Ret by exact Hcall. cbn [snd]. fold sm1 w1.
          rewrite Hevs. unfold w1. cbn [trace]. rewrite <- app_assoc. reflexivity. }
      cbn [app]. rewrite started_hooks_start, started_hooks_app,
        started_hooks_notifications, Hrest. reflexivity.
    + erewrite emitted_spec.
      2:{ cbn [start_in_order]. rewrite Hstart.
          erewrite bind_Hang by exact Hcall. cbn [snd trace]. reflexivity. }
      rewrite started_hooks_start, started_hooks_notifications. reflexivity.
Qed.

Lemma hooks_called_all (order : list ServiceWrapper) :
  (forall d, In d order -> start_hook_succeeds d) -> hooks_called order = map name order.
Proof.
  induction order as [|d order IH]; intro Hall; simpl; [reflexivity|].
  destruct (Hall d (or_introl eq_refl)) as (notifications & took & ->).
  rewrite IH; [reflexivity|]. intros d' Hd'. apply Hall. right. exact Hd'.
Qed.

(** [StartAll] calls the start hooks of the resolved order, and none when
    the validation or the resolution fails. *)
Lemma StartAll_hooks (sm : ServiceManager) (w : World) :
  started_hooks (emitted (StartAll sm) w)
  = match first_unknown_dependency (registered_services sm) (registered_services sm) with
    | Some _ => []
    | None =>
        match resolve_order (List.length (registered_services sm)) [] (registered_services sm) with
        | inl order => hooks_called order
        | inr _ => []
        end
    end.
Proof.
  assert (Hret : forall r : ServiceManager * option error, started_hooks (emitted (ret r) w) = []).
  { intro r. rewrite (@emitted_spec _ _ _ []); [reflexivity|].
    simpl. rewrite app_nil_r. reflexivity. }
  unfold StartAll, registered_services.
  destruct (first_unknown_dependency _ _) as [[serviceID missingID]|].
  - apply Hret.
  - destruct (resolve_order _ _ _) as [order|e].
    + apply start_in_order_hooks.
    + apply Hret.
Qed.

(** With distinct identities, an acyclic dependency graph and start hooks
    that succeed, [StartAll] starts every registered service once, in an
    order that has the dependencies first and the ties broken by priority,
    then registration. *)
Lemma StartAll_order (sm : ServiceManager) (w : World) :
  NoDup (map name (registered_services sm)) ->
  acyclic_dependencies (registered_services sm) ->
  (forall d, In d (registered_services sm) -> start_hook_succeeds d) ->
  exists order,
    started_hooks (emitted (StartAll sm) w) = map name order
    /\ Permutation order (registered_services sm)
    /\ dependencies_first order
    /\ priority_then_registration (registered_services sm) order.
Proof.
  intros Hnodup Hacyclic Hhooks.
  destruct (@acyclic_resolves _ Hnodup Hacyclic) as [Hknown [order Hres]].
  destruct (@resolved_order _ _ Hnodup Hres) as (Hperm & Hdeps & Hties).
  exists order. rewrite StartAll_hooks, Hknown, Hres.
  split; [|split; [exact Hperm | split; [exact Hdeps | exact Hties]]].
  apply hooks_called_all. intros d Hd. apply Hhooks.
  eapply Permutation_in; [exact Hperm | exact Hd].
Qed.

(** *** The start hooks of [main] *)

Lemma starts_none (A : Type) (m : M A) : emits no_start_hook m -> starts [] m.
Proof.
  intros H w. destruct (H w) as (evs & Ht & Hq).
  exists evs. split; [exact Ht | apply started_hooks_none, Hq].
Qed.

Lemma starts_bind_ret (hooks : list string) (A B : Type) (m : M A) (k : A -> M B) (a : A) :
  emits no_start_hook m -> (forall w, fst (m w) = Ret a) -> starts hooks (k a) ->
  starts hooks (bind m k).
Proof.
  intros Hm Hret Hk w. unfold bind.
  destruct (Hm w) as (evs1 & Ht1 & Hq1). specialize (Hret w).
  destruct (m w) as [r w1]. simpl in Ht1, Hret. subst r.
  destruct (Hk w1) as (evs2 & Ht2 & Hh).
  exists (evs1 ++ evs2). rewrite Ht2, Ht1, app_assoc. split; [reflexivity|].
  rewrite started_hooks_app, (@started_hooks_none _ Hq1). exact Hh.
Qed.

Lemma starts_bind_then_none (hooks : list string) (A B : Type) (m : M A) (k : A -> M B) :
  starts hooks m -> (forall a, emits no_start_hook (k a)) -> starts hooks (bind m k).
Proof.
  intros Hm Hk w. unfold bind. destruct (Hm w) as (evs1 & Ht1 & Hh).
  destruct (m w) as [[a|c|] w1]; simpl in Ht1.
  - destruct (Hk a w1) as (evs2 & Ht2 & Hq2).
    exists (evs1 ++ evs2). rewrite Ht2, Ht1, app_assoc. split; [reflexivity|].
    rewrite started_hooks_app, (@started_hooks_none _ Hq2), app_nil_r. exact Hh.
  - exists evs1. split; assumption.
  - exists evs1. split; assumption.
Qed.

Lemma emits_StopAll_no_start_hook (deadline : Duration) (sm : ServiceManager) :
  emits no_start_hook (StopAll deadline sm).
Proof.
  intro w. unfold StopAll.
  destruct (stop_in_order_run (rev (startOrder sm)) deadline (services sm) [] w)
    as (stops & r & Hrun & Hstops & _).
  exists stops. erewrite bind_Ret by exact Hrun. split; [reflexivity|].
  apply forallb_forall. intros e He.
  rewrite forallb_forall in Hstops. specialize (Hstops e He).
  destruct e; try discriminate; reflexivity.
Qed.

Lemma reconcile_emits_no_start_hook (env : Env) : emits no_start_hook (reconcile env).
Proof.
  intro w. destruct (reconcile_run env w) as (evs & n & Hrun & Hshape).
  exists evs. rewrite Hrun. split; [reflexivity|].
  destruct Hshape; try reflexivity.
  simpl. rewrite forallb_app. simpl. rewrite andb_true_r.
  apply forallb_forall. intros e He.
  pose proof (guilds_events_pass env (configured_guilds env) n0) as Hpass.
  rewrite Forall_forall in Hpass. specialize (Hpass e He).
  destruct e; try discriminate; reflexivity.
Qed.

(** Walks through the calls of [main] that are no start hook. *)
Ltac no_start_walk :=
  repeat first
    [ apply emits_ret
    | apply emits_os_Exit
    | apply emits_emit; reflexivity
    | apply emits_StopAll_no_start_hook
    | apply emits_bind; [|intro]
    | match goal with
      | |- emits _ (match ?x with _ => _ end) => destruct x
      | |- emits _ (if ?x then _ else _) => destruct x
      end ].

Lemma started_hooks_start_events (env : Env) :
  started_hooks (start_events env)
  = "monitoring" :: match monitoringService_Start env with
                    | Returned _ _ None => ["automod"]
                    | _ => []
                    end.
Proof.
  unfold start_events, automod_start_events.
  rewrite started_hooks_start.
  destruct (monitoringService_Start env) as [notifications took [cause|]|notifications];
    rewrite ?started_hooks_app, ?started_hooks_start, started_hooks_notifications;
    try reflexivity.
  destruct (automodService_Start env) as [[notifications' took']|]; simpl;
    [rewrite started_hooks_notifications|]; reflexivity.
Qed.

Lemma run_services_starts (env : Env) : starts (main_start_hooks env) (run_services env).
Proof.
  unfold run_services, main_start_hooks. cbv zeta.
  apply starts_bind_ret with (a := tt);
    [unfold log_Info; apply emits_emit; reflexivity | reflexivity |].
  apply starts_bind_ret with (a := NewMonitoringService env);
    [unfold logging_NewMonitoringService; no_start_walk | reflexivity |].
  destruct (NewMonitoringService env) as [err|].
  - apply starts_none. unfold log_Error. no_start_walk.
  - change (Register NewServiceManager (monitoringWrapper env))
      with (@inl ServiceManager error
              {| services := [mkServiceRecord (monitoringWrapper env) StateRegistered None];
                 startOrder := [] |}).
    cbv beta iota.
    change (Register {| services := [mkServiceRecord (monitoringWrapper env) StateRegistered None];
                        startOrder := [] |} (automodWrapper env))
      with (@inl ServiceManager error (registered_manager env)).
    cbv beta iota.
    apply starts_bind_ret with (a := tt);
      [unfold log_Info; apply emits_emit; reflexivity | reflexivity |].
    apply starts_bind_then_none.
    + intro w.
      destruct (@emits_StartAll (fun _ => true) (registered_manager env) (fun _ _ => eq_refl) w)
        as (evs & Ht & _).
      exists evs. split; [exact Ht|].
      pose proof (StartAll_main_events env w) as Hevents.
      rewrite (@emitted_spec _ _ _ _ Ht) in Hevents. subst evs.
      apply started_hooks_start_events.
    + intros [serviceManager err]. cbn [fst snd].
      unfold shutdown, shutdown_with, log_Info, log_Error, commandHandler_SetupCommands,
        store_Close.
      no_start_walk.
Qed.

Lemma main_starts (env : Env) : starts (main_start_hooks env) (main env).
Proof.
  unfold main. apply starts_bind_ret with (a := tt).
  - apply reconcile_emits_no_start_hook.
  - intro w. destruct (reconcile_run env w) as (evs & n & Hrun & _).
    rewrite Hrun. reflexivity.
  - apply run_services_starts.
Qed.

(** C8.  On the service manager as the specification describes it.
    (1) With distinct identities, an acyclic dependency graph and start
    hooks that succeed, [StartAll] calls the start hook of every registered
    service exactly once, in an order in which every service comes after the
    services it depends on and in which the ties are broken by priority
    (high before normal before low), then by registration order: a service
    that comes later although its dependencies were already started has a
    worse priority, or the same priority and a later registration.
    (2) An acyclic graph always resolves: the validation finds no unknown
    dependency and the resolution returns an order.  (3) Whatever order the
    resolution returns has these three properties.  (4) [pick_next] picks,
    among the ready candidates, one of the best priority and the earliest
    registered of those.  (5) [StartAll] calls exactly the hooks of the
    resolved order up to the first that fails or never returns, and none
    when the validation or the resolution fails.  (6) In [main], both
    registrations succeed and the resolved order is monitoring, automod.
    (7) A run of [main] calls the start hook of the monitoring service
    first and, when it returned without error, that of the automod service
    next, and no other start hook; it calls none when the monitoring service
    cannot be created. *)
Theorem start_order_respects_dependencies_and_priority :
  (forall sm w,
      NoDup (map name (registered_services sm)) ->
      acyclic_dependencies (registered_services sm) ->
      (forall d, In d (registered_services sm) -> start_hook_succeeds d) ->
      exists order,
        started_hooks (emitted (StartAll sm) w) = map name order
        /\ Permutation order (registered_services sm)
        /\ dependencies_first order
        /\ priority_then_registration (registered_services sm) order)
  /\ (forall ds,
         NoDup (map name ds) ->
         acyclic_dependencies ds ->
         first_unknown_dependency ds ds = None
         /\ exists order, resolve_order (List.length ds) [] ds = inl order)
  /\ (forall ds order,
         NoDup (map name ds) ->
         resolve_order (List.length ds) [] ds = inl order ->
         Permutation order ds /\ dependencies_first order
         /\ priority_then_registration ds order)
  /\ (forall placed candidates d,
         pick_next placed candidates = Some d ->
         exists l1 l2,
           candidates = l1 ++ d :: l2
           /\ is_ready placed d = true
           /\ (forall d', In d' l1 -> is_ready placed d' = true ->
               priority_rank (priority d) < priority_rank (priority d'))
           /\ (forall d', In d' l2 -> is_ready placed d' = true ->
               priority_rank (priority d) <= priority_rank (priority d')))
  /\ (forall sm w,
         started_hooks (emitted (StartAll sm) w)
         = match first_unknown_dependency (registered_services sm) (registered_services sm) with
           | Some _ => []
           | None =>
               match resolve_order (List.length (registered_services sm)) []
                       (registered_services sm) with
               | inl order => hooks_called order
               | inr _ => []
               end
           end)
  /\ (forall env,
         Register NewServiceManager (monitoringWrapper env)
         = inl {| services := [mkServiceRecord (monitoringWrapper env) StateRegistered None];
                  startOrder := [] |}
         /\ Register {| services := [mkServiceRecord (monitoringWrapper env) StateRegistered None];
                        startOrder := [] |} (automodWrapper env)
            = inl (registered_manager env)
         /\ resolve_order 2 [] [monitoringWrapper env; automodWrapper env]
            = inl [monitoringWrapper env; automodWrapper env]
         /\ forall w, emitted (StartAll (registered_manager env)) w = start_events env)
  /\ (forall env w, started_hooks (emitted (main env) w) = main_start_hooks env).
Proof.
  refine (conj _ (conj _ (conj _ (conj _ (conj _ (conj _ _)))))).
  - intros sm w. apply StartAll_order.
  - intros ds. apply acyclic_resolves.
  - intros ds order. apply resolved_order.
  - exact pick_next_spec.
  - exact StartAll_hooks.
  - intro env. repeat split. apply StartAll_main_events.
  - intros env w. destruct (main_starts env w) as (evs & Ht & Hhooks).
    rewrite (@emitted_spec _ _ _ _ Ht). exact Hhooks.
Qed.

(** The example of section 8, registered in the order Z, Y, X: the graph is
    acyclic, so it resolves; the order X, Y, Z has every service once, X
    before its dependents, and Y (high) before Z (normal). *)
Lemma start_order_respects_dependencies_and_priority_witness :
  (first_unknown_dependency [service_Z; service_Y; service_X]
     [service_Z; service_Y; service_X] = None
   /\ exists order, resolve_order 3 [] [service_Z; service_Y; service_X] = inl order)
  /\ Permutation [service_X; service_Y; service_Z] [service_Z; service_Y; service_X]
  /\ dependencies_first [service_X; service_Y; service_Z]
  /\ priority_then_registration [service_Z; service_Y; service_X]
       [service_X; service_Y; service_Z].
Proof.
  assert (Hnodup : NoDup (map name [service_Z; service_Y; service_X])).
  { simpl. repeat constructor; simpl; intuition discriminate. }
  split.
  - apply (proj1 (proj2 start_order_respects_dependencies_and_priority)
             [service_Z; service_Y; service_X] Hnodup).
    exists example_level. intros d dep Hd Hdep. simpl in Hd.
    destruct Hd as [<-|[<-|[<-|[]]]]; simpl in Hdep;
      repeat (destruct Hdep as [<-|Hdep]); try contradiction;
      (split; [simpl; auto | vm_compute; lia]).
  - apply (proj1 (proj2 (proj2 start_order_respects_dependencies_and_priority))
             [service_Z; service_Y; service_X] [service_X; service_Y; service_Z] Hnodup).
    reflexivity.
Defined.

(** ** The deadline of the shutdown *)

(** The duration given to [context.WithTimeout] at main.go:223 has no
    effect on the deferred function: the context is never handed on. *)
Lemma shutdown_timeout_is_unused (env : Env) (shutdownTimeout : Duration)
    (sm : ServiceManager) (w : World) :
  shutdown_with env shutdownTimeout sm w = shutdown env sm w.
Proof. reflexivity. Qed.

(** [StopAll] returns, whatever the stop hooks do. *)
Lemma StopAll_returns (deadline : Duration) (sm : ServiceManager) (w : World) :
  exists r, fst (StopAll deadline sm w) = Ret r.
Proof.
  unfold StopAll.
  destruct (stop_in_order_run (rev (startOrder sm)) deadline (services sm) [] w)
    as (stops & r & Hrun & _).
  erewrite bind_Ret by exact Hrun. eexists. reflexivity.
Qed.

(** * Further properties *)

(** ** The start of [main] *)

Lemma check_preceded_sound (p q : StartupEvent -> bool) (tr : list StartupEvent) (seen : bool) :
  check_preceded p q seen tr = true ->
  forall l1 e l2, tr = l1 ++ e :: l2 -> q e = true ->
  seen = true \/ exists e', In e' l1 /\ p e' = true.
Proof.
  revert seen. induction tr as [|x tr IH]; intros seen Hcheck l1 e l2 Hsplit Hq.
  - destruct l1; discriminate.
  - simpl in Hcheck. apply andb_true_iff in Hcheck. destruct Hcheck as [Hx Hrest].
    destruct l1 as [|y l1]; simpl in Hsplit; inversion Hsplit; subst.
    + rewrite Hq in Hx. simpl in Hx. rewrite orb_false_r in Hx. left. exact Hx.
    + destruct (IH _ Hrest l1 e l2 eq_refl Hq) as [Hseen|(e' & Hin & Hp)].
      * apply orb_true_iff in Hseen. destruct Hseen as [Hseen|Hp].
        -- left. exact Hseen.
        -- right. exists y. split; [left; reflexivity | exact Hp].
      * right. exists e'. split; [right; exact Hin | exact Hp].
Qed.

(** Unfolds the start and distinguishes the answers of the collaborators. *)
Ltac startup_cases senv :=
  destruct senv as [tok sl ie nds ecd ecf lc mig si lcg];
  cbv [token SetupLogger InitializeGlobalErrorHandler NewDiscordSession
       EnsureCacheDirs EnsureConfigFiles LoadConfig MigrateAvatarJSONToSQLite
       Init LogConfiguredGuilds startup_succeeds];
  destruct (String.eqb tok "") eqn:Htok;
  destruct (nds tok) as [user|] eqn:Hnds;
  destruct sl, ie, ecd, ecf, lc, mig, si, lcg;
  cbv [startup st_bind st_call st_emit st_ret st_Exit st_log
       token SetupLogger InitializeGlobalErrorHandler NewDiscordSession
       EnsureCacheDirs EnsureConfigFiles LoadConfig MigrateAvatarJSONToSQLite
       Init LogConfiguredGuilds fst snd app];
  rewrite ?Htok, ?Hnds.

(** X1. The start ends the process, with exit code 1, exactly when one of
    these fails: the logger setup, the initialisation of the error handler,
    the presence of the token, the creation of the Discord session, the
    cache directories, the configuration files, the initialisation of the
    store.  A failure to load the settings, to migrate the avatar cache or
    to reach the configured guilds never ends it.  When the start ends the
    process, nothing of the reconciliation or of the services runs; when it
    does not, [main] carries on from the same world. *)
Theorem startup_exits_exactly_on_fatal_failure (senv : StartupEnv) :
  (forall tr, fst (startup senv tr) = if startup_succeeds senv then Ret tt else Exit 1)
  /\ (forall env w,
        boot senv env w =
        if startup_succeeds senv
        then (fst (main env w), snd (startup senv []), snd (main env w))
        else (Exit 1, snd (startup senv []), w)).
Proof.
  split.
  - intro tr. startup_cases senv; reflexivity.
  - intros env w. unfold boot. destruct (main env w) as [r w'].
    startup_cases senv; reflexivity.
Qed.

(** X2. In every run of the start, each step that works on paths derived
    from the bot name (cache directories, configuration files, loading the
    settings, the migration, the initialisation of the store) comes after
    [util.SetBotName] was called with the user name of the session just
    created. *)
Theorem bot_name_set_before_paths_are_used (senv : StartupEnv) :
  preceded_by
    (fun e => match e, NewDiscordSession senv (token senv) with
              | SevSetBotName botName, inl user => String.eqb botName (Username user)
              | _, _ => false
              end)
    uses_bot_paths
    (snd (startup senv [])).
Proof.
  intros l1 e l2 Hsplit Hq.
  assert (Hcheck :
            check_preceded
              (fun e => match e, NewDiscordSession senv (token senv) with
                        | SevSetBotName botName, inl user => String.eqb botName (Username user)
                        | _, _ => false
                        end)
              uses_bot_paths false (snd (startup senv [])) = true).
  { clear. startup_cases senv; cbn; rewrite ?Hnds; cbn; rewrite ?String.eqb_refl;
      reflexivity. }
  destruct (@check_preceded_sound _ _ _ _ Hcheck _ _ _ Hsplit Hq) as [Hseen|Hfound].
  - discriminate.
  - exact Hfound.
Qed.

(** X3. Nothing goes through the logger unless the logger was set up and
    the error handler initialised: a failure of either is printed (standard
    output, standard error) and no log line is written in that run. *)
Theorem no_log_line_without_logger (senv : StartupEnv) (lvl : Level) (msg : StartupMsg) :
  In (SevLog lvl msg) (snd (startup senv [])) ->
  SetupLogger senv = None /\ InitializeGlobalErrorHandler senv = None.
Proof.
  destruct senv as [tok sl ie nds ecd ecf lc mig si lcg].
  destruct sl as [err|].
  - cbn. intros [H|[H|[]]]; discriminate.
  - destruct ie as [err|].
    + cbn. intros [H|[H|[H|[]]]]; discriminate.
    + intros _. split; reflexivity.
Qed.

Lemma no_log_line_without_logger_witness :
  SetupLogger senv_ok = None /\ InitializeGlobalErrorHandler senv_ok = None.
Proof.
  apply (@no_log_line_without_logger senv_ok LevelInfo MsgStartingBot).
  cbn. auto.
Defined.

(** X4. The only token a Discord session is ever created with is the one
    loaded from the environment, and never the empty one. *)
Theorem session_created_with_loaded_token (senv : StartupEnv) (tok : string) :
  In (SevNewDiscordSession tok) (snd (startup senv [])) ->
  tok = token senv /\ tok <> "".
Proof.
  intro Hin.
  assert (Hall : forallb (fun e => match e with
                                   | SevNewDiscordSession t =>
                                       String.eqb t (token senv) && negb (String.eqb t "")
                                   | _ => true
                                   end) (snd (startup senv [])) = true).
  { clear. startup_cases senv; cbn; rewrite ?String.eqb_refl, ?Htok; reflexivity. }
  rewrite forallb_forall in Hall. specialize (Hall _ Hin). cbn in Hall.
  apply andb_true_iff in Hall. destruct Hall as [Heq Hne].
  apply String.eqb_eq in Heq. apply negb_true_iff, String.eqb_neq in Hne.
  split; assumption.
Qed.

Lemma session_created_with_loaded_token_witness :
  "s3cr3t" = token senv_ok /\ "s3cr3t" <> "".
Proof.
  apply (@session_created_with_loaded_token senv_ok "s3cr3t").
  cbn. auto 10.
Defined.

(** ** The staleness test and the stamps of the pass *)

(** Saturating the difference leaves the comparison with 30 minutes as it
    is on the exact difference. *)
Lemma Sub_stale (t u : Time) :
  (Sub t u >? 30 * Minute)%Z = (t - u >? 1800000000000)%Z.
Proof.
  unfold Sub, maxDuration, minDuration, Minute, Second, Nanosecond.
  change (2 ^ 63)%Z with 9223372036854775808%Z.
  change (30 * (60 * (1000000000 * 1)))%Z with 1800000000000%Z.
  repeat match goal with
         | |- context [if ?b then _ else _] => destruct b eqn:?
         end;
    try reflexivity.
  - match goal with H : (_ >? _)%Z = true |- _ => apply Z.gtb_lt in H end.
    symmetry. apply Z.gtb_lt. lia.
  - match goal with H : (_ <? _)%Z = true |- _ => apply Z.ltb_lt in H end.
    symmetry. rewrite Z.gtb_ltb. apply Z.ltb_ge. lia.
Qed.

(** X5. With a store that is not nil and a heartbeat read without error
    and found, the refresh pass is entered exactly when the clock reading of
    the test exceeds the heartbeat by more than 1 800 000 000 000
    nanoseconds, as integers: a heartbeat of exactly 30 minutes, or one
    lying in the future, skips the pass, and the saturation of
    [time.Duration] never changes the outcome. *)
Theorem staleness_test_is_exact (env : Env) (lastHB : Time) (w : World) :
  store_is_nil env = false ->
  GetHeartbeat env = (lastHB, true, None) ->
  (refresh_pass_taken (emitted (reconcile env) w)
   <-> (clock env (ticks w) - lastHB > 1800000000000)%Z).
Proof.
  intros Hstore Hhb.
  destruct (Sub (clock env (ticks w)) lastHB >? 30 * Minute)%Z eqn:Hstale.
  - pose proof Hstale as Hexact. rewrite Sub_stale in Hexact. apply Z.gtb_lt in Hexact.
    assert (Hor : negb true || (Sub (clock env (ticks w)) lastHB >? 30 * Minute)%Z = true)
      by (rewrite Hstale; reflexivity).
    pose proof (reconcile_taken env w Hstore Hhb Hor) as Hrun.
    apply reconcile_emitted in Hrun. rewrite Hrun.
    split; [intros _; lia | intros _]. right. left. reflexivity.
  - pose proof Hstale as Hexact. rewrite Sub_stale, Z.gtb_ltb in Hexact.
    apply Z.ltb_ge in Hexact.
    pose proof (reconcile_skipped env w Hstore Hhb Hstale) as Hrun.
    apply reconcile_emitted in Hrun. rewrite Hrun.
    split; [|intro; lia].
    intros [H|[H|[H|[]]]]; discriminate.
Qed.

Lemma staleness_test_is_exact_witness :
  refresh_pass_taken (emitted (reconcile env_stale) w0)
  <-> (clock env_stale (ticks w0) - 40 * Minute > 1800000000000)%Z.
Proof.
  apply (@staleness_test_is_exact env_stale (40 * Minute)%Z w0); reflexivity.
Defined.

Lemma stamp_In (env : Env) (targets : list (string * string * string)) (n : nat)
    (g u a : string) (t : Time) :
  In (EvUpsertAvatar g u a t) (stamp env n targets) ->
  exists i, n <= i < n + List.length targets /\ t = clock env i /\ In (g, u, a) targets.
Proof.
  revert n. induction targets as [|[[g' u'] a'] targets IH]; intros n Hin; simpl in Hin.
  - destruct Hin.
  - destruct Hin as [Heq|Hin].
    + inversion Heq; subst. exists n. simpl. split; [lia | split; [reflexivity | left; reflexivity]].
    + destruct (IH _ Hin) as (i & Hi & Ht & Hmem).
      exists i. simpl. split; [lia | split; [exact Ht | right; exact Hmem]].
Qed.

Lemma guilds_events_upsert_In (env : Env) (guilds : list GuildConfig) (n : nat)
    (g u a : string) (t : Time) :
  In (EvUpsertAvatar g u a t) (guilds_events env n guilds) ->
  exists i gcfg,
    n <= i < n + List.length (flat_map (guild_targets env) guilds)
    /\ t = clock env i
    /\ In gcfg guilds
    /\ In (g, u, a) (guild_targets env gcfg).
Proof.
  revert n. induction guilds as [|gcfg guilds IH]; intros n Hin; cbn [guilds_events] in Hin.
  - destruct Hin.
  - cbn [flat_map]. rewrite length_app. apply in_app_or in Hin. destruct Hin as [Hin|Hin].
    + unfold guild_events in Hin. destruct Hin as [Heq|Hin]; [discriminate|].
      destruct (GuildMembers env (GuildID gcfg) "" 1000) eqn:Hfetch.
      * apply stamp_In in Hin. destruct Hin as (i & Hi & Ht & Hmem).
        exists i, gcfg. split; [lia | split; [exact Ht | split; [left; reflexivity | exact Hmem]]].
      * destruct Hin as [Heq|[]]. discriminate.
    + destruct (IH _ Hin) as (i & gcfg' & Hi & Ht & Hg & Hmem).
      exists i, gcfg'. split; [lia | split; [exact Ht | split; [right; exact Hg | exact Hmem]]].
Qed.

Lemma guilds_events_no_heartbeat_write (env : Env) (guilds : list GuildConfig) (n : nat)
    (t : Time) :
  ~ In (EvSetHeartbeat t) (guilds_events env n guilds).
Proof.
  intro Hin. pose proof (guilds_events_pass env guilds n) as Hpass.
  rewrite Forall_forall in Hpass. specialize (Hpass _ Hin). discriminate.
Qed.

(** X6. When the clock never goes back, the heartbeat written by
    [reconcile] is not earlier than the stamp of any avatar it upserted: the
    heartbeat is taken from a reading of the clock that follows all the
    readings of the pass. *)
Theorem heartbeat_not_before_upserts (env : Env) (w : World)
    (g u a : string) (t t' : Time) :
  (forall i j, i <= j -> (clock env i <= clock env j)%Z) ->
  In (EvUpsertAvatar g u a t) (emitted (reconcile env) w) ->
  In (EvSetHeartbeat t') (emitted (reconcile env) w) ->
  (t <= t')%Z.
Proof.
  intros Hclock Hup Hhb.
  destruct (store_is_nil env) eqn:Hstore.
  - rewrite (@emitted_spec _ _ _ []) in Hup; [destruct Hup|].
    rewrite reconcile_nil_store by assumption. simpl. rewrite app_nil_r. reflexivity.
  - destruct (GetHeartbeat env) as [[lastHB ok] [err|]] eqn:Hget.
    + pose proof (reconcile_read_error env w Hstore Hget) as Hrun.
      apply reconcile_emitted in Hrun. rewrite Hrun in Hup.
      destruct Hup as [H|[H|[H|[]]]]; discriminate.
    + destruct (negb ok || (Sub (clock env (ticks w)) lastHB >? 30 * Minute)%Z) eqn:Hstale.
      * pose proof (reconcile_taken env w Hstore Hget Hstale) as Hrun.
        apply reconcile_emitted in Hrun. rewrite Hrun in Hup, Hhb.
        destruct Hup as [H|[H|Hup]]; try discriminate.
        destruct Hhb as [H|[H|Hhb]]; try discriminate.
        cbn [app] in Hup, Hhb.
        apply in_app_or in Hup. destruct Hup as [Hup|[H|[H|[]]]]; try discriminate.
        apply in_app_or in Hhb. destruct Hhb as [Hhb|[H|[H|[]]]]; try discriminate.
        -- exfalso. exact (guilds_events_no_heartbeat_write _ _ _ _ Hhb).
        -- inversion H; subst t'.
           apply guilds_events_upsert_In in Hup.
           destruct Hup as (i & gcfg & Hi & -> & _ & _).
           apply Hclock. unfold refresh_targets. lia.
      * apply orb_false_elim in Hstale. destruct Hstale as [Hok Hage].
        apply negb_false_iff in Hok. subst ok.
        pose proof (reconcile_skipped env w Hstore Hget Hage) as Hrun.
        apply reconcile_emitted in Hrun. rewrite Hrun in Hup.
        destruct Hup as [H|[H|[H|[]]]]; discriminate.
Qed.

Lemma heartbeat_not_before_upserts_witness :
  (sample_clock 1 <= sample_clock 4)%Z.
Proof.
  apply (@heartbeat_not_before_upserts env_stale w0 "g1" "1001" "a3f9"
           (sample_clock 1) (sample_clock 4)).
  - intros i j Hij. unfold env_stale, sample_env, clock, sample_clock, Minute, Second, Nanosecond.
    lia.
  - vm_compute. auto.
  - vm_compute. auto 20.
Defined.

(** ** Edge cases of the reconciliation *)

(** X7. With nothing to refresh (a nil configuration, or one without
    guilds), a pass that is due still runs: it logs its opening and closing
    lines, requests and upserts nothing, reads the clock for nothing but the
    heartbeat, and the heartbeat is written. *)
Theorem nothing_to_refresh (env : Env) (lastHB : Time) (ok : bool) (w : World) :
  store_is_nil env = false ->
  GetHeartbeat env = (lastHB, ok, None) ->
  negb ok || (Sub (clock env (ticks w)) lastHB >? 30 * Minute)%Z = true ->
  (Config env = None \/ exists cfg, Config env = Some cfg /\ Guilds cfg = []) ->
  reconcile env w =
  (Ret tt,
   {| trace := trace w ++ [EvGetHeartbeat;
                           EvLog LevelInfo MsgDowntimeDetected;
                           EvLog LevelInfo MsgRefreshCompleted;
                           EvSetHeartbeat (clock env (pass_start ok w))];
      ticks := S (pass_start ok w) |}).
Proof.
  intros Hstore Hhb Hstale Hempty.
  assert (Hguilds : configured_guilds env = []).
  { unfold configured_guilds. destruct Hempty as [->|(cfg & -> & Hcfg)]; [reflexivity | exact Hcfg]. }
  rewrite (reconcile_taken env w Hstore Hhb Hstale).
  unfold refresh_targets. rewrite Hguilds. simpl. rewrite Nat.add_0_r. reflexivity.
Qed.

Lemma nothing_to_refresh_witness :
  reconcile env_nil_config w0 =
  (Ret tt,
   {| trace := [EvGetHeartbeat;
                EvLog LevelInfo MsgDowntimeDetected;
                EvLog LevelInfo MsgRefreshCompleted;
                EvSetHeartbeat (sample_clock 1)];
      ticks := 2 |}).
Proof.
  apply (@nothing_to_refresh env_nil_config (40 * Minute)%Z true w0).
  - reflexivity.
  - reflexivity.
  - reflexivity.
  - left. reflexivity.
Defined.

Lemma member_targets_In (guildID g u a : string) (members : list (option Member)) :
  In (g, u, a) (flat_map (member_targets guildID) members) ->
  g = guildID
  /\ exists user, In (Some (mkMember (Some user))) members
                  /\ u = ID user /\ a = avatar_value user.
Proof.
  induction members as [|member members IH]; simpl; intro Hin.
  - destruct Hin.
  - apply in_app_or in Hin. destruct Hin as [Hin|Hin].
    + destruct member as [[[user|]]|]; simpl in Hin; try (destruct Hin; fail).
      destruct Hin as [Heq|[]]. inversion Heq; subst.
      split; [reflexivity|]. exists user. split; [left; reflexivity | split; reflexivity].
    + destruct (IH Hin) as (Hg & user & Hmem & Hu & Ha).
      split; [exact Hg|]. exists user. split; [right; exact Hmem | split; assumption].
Qed.

Lemma stamp_only_upserts (env : Env) (targets : list (string * string * string)) (n : nat)
    (e : Event) :
  In e (stamp env n targets) -> is_upsert e = true.
Proof.
  intro Hin. assert (H : In e (upserts (stamp env n targets))).
  { rewrite upserts_stamp. exact Hin. }
  apply filter_In in H. exact (proj2 H).
Qed.

Lemma guilds_events_within_configuration (env : Env) (guilds : list GuildConfig) (n : nat) :
  (forall gcfg, In gcfg guilds -> In (GuildID gcfg) (map GuildID (configured_guilds env))) ->
  Forall (within_configuration env) (guilds_events env n guilds).
Proof.
  revert n. induction guilds as [|gcfg guilds IH]; intros n Hsub; cbn [guilds_events].
  - constructor.
  - apply Forall_app. split.
    + unfold guild_events. constructor.
      * simpl. split; [apply Hsub; left; reflexivity | split; reflexivity].
      * destruct (GuildMembers env (GuildID gcfg) "" 1000) as [members|err] eqn:Hfetch.
        -- apply Forall_forall. intros e He.
           pose proof (stamp_only_upserts _ _ _ _ He) as Hups.
           destruct e; try discriminate.
           apply stamp_In in He. destruct He as (_ & _ & _ & Hmem).
           unfold guild_targets in Hmem. rewrite Hfetch in Hmem.
           apply member_targets_In in Hmem.
           destruct Hmem as (-> & user & Hin & -> & ->).
           simpl. split; [apply Hsub; left; reflexivity|].
           exists members, user. repeat split; assumption.
        -- repeat constructor.
    + apply IH. intros gcfg' Hin. apply Hsub. right. exact Hin.
Qed.

(** X8. Whatever [main] does, every member request asks for the first
    1000 members of a configured guild (empty cursor, no further page), and
    every upsert stores, under the id of a configured guild, the id and the
    avatar value of a user that Discord listed for that very guild. *)
Theorem refresh_stays_within_configuration (env : Env) (w : World) :
  Forall (within_configuration env) (emitted (main env) w).
Proof.
  destruct (reconcile_run env w) as (evs & n & Hrun & Hshape).
  destruct (emits_run_services env {| trace := trace w ++ evs; ticks := n |})
    as (post & Hpost & Hservices).
  erewrite emitted_spec.
  2:{ unfold main. erewrite bind_Ret by exact Hrun. rewrite Hpost. cbn [trace].
      rewrite <- app_assoc. reflexivity. }
  apply Forall_app. split.
  - destruct Hshape; repeat (constructor; try exact I).
    apply Forall_app. split; [|repeat constructor].
    apply guilds_events_within_configuration.
    intros gcfg Hin. apply in_map. exact Hin.
  - apply Forall_forall. intros e He.
    rewrite forallb_forall in Hservices. specialize (Hservices e He).
    destruct e; try discriminate; exact I.
Qed.

(** X9. What [store.UpsertAvatar] and [store.Close] answer has no effect
    on the run of [main]: a failed upsert is not logged and does not keep
    the remaining members from being refreshed, and a failed close is not
    logged either. *)
Theorem store_write_answers_are_ignored (env : Env) (w : World)
    (upsert : string -> string -> string -> Time -> string * bool * option error)
    (close : option error) :
  main (with_store_answers upsert close env) w = main env w.
Proof. destruct env. reflexivity. Qed.

(** ** A nil store *)

(** Walks through a sequence of calls for a predicate [p] that accepts the
    hooks. *)
Ltac emits_walk_with Hp :=
  repeat first
    [ apply emits_ret
    | apply emits_os_Exit
    | apply emits_emit; reflexivity
    | apply emits_StartAll; exact Hp
    | apply emits_StopAll; exact Hp
    | apply emits_bind; [|intro]
    | match goal with
      | |- emits _ (match ?x with _ => _ end) => destruct x
      end ].

(** X10. With a nil store, [main] never calls the store: no heartbeat is
    read or written, no avatar is upserted, and the deferred function does
    not close it; the services are created, started and stopped all the
    same. *)
Theorem nil_store_is_never_called (env : Env) (w : World) :
  store_is_nil env = true ->
  forallb (fun e => negb (is_store_call e)) (emitted (main env) w) = true
  /\ main env w = run_services env w.
Proof.
  intro Hnil.
  assert (Hmain : main env w = run_services env w).
  { unfold main. erewrite bind_Ret by (apply reconcile_nil_store; exact Hnil). reflexivity. }
  split; [|exact Hmain].
  assert (Hp : accepts_hooks (fun e => negb (is_store_call e))).
  { intros e He. destruct e; try discriminate; reflexivity. }
  assert (Hemits : emits (fun e => negb (is_store_call e)) (run_services env)).
  { unfold run_services, shutdown, shutdown_with, log_Info, log_Error,
      logging_NewMonitoringService, commandHandler_SetupCommands.
    rewrite Hnil. emits_walk_with Hp. }
  destruct (Hemits w) as (evs & Htrace & Hevs).
  rewrite <- Hmain in Htrace. rewrite (@emitted_spec _ _ _ _ Htrace). exact Hevs.
Qed.

Lemma nil_store_is_never_called_witness :
  forallb (fun e => negb (is_store_call e)) (emitted (main env_nil_store) w0) = true
  /\ main env_nil_store w0 = run_services env_nil_store w0.
Proof.
  exact (@nil_store_is_never_called env_nil_store w0 eq_refl).
Defined.

(** ** Ending the process *)

Lemma never_exits_ret (A : Type) (a : A) : never_exits (ret a).
Proof. intros w c. discriminate. Qed.

Lemma never_exits_emit (e : Event) : never_exits (emit e).
Proof. intros w c. discriminate. Qed.

Lemma never_exits_block_forever (A : Type) : never_exits (@block_forever A).
Proof. intros w c. discriminate. Qed.

Lemma never_exits_bind (A B : Type) (m : M A) (k : A -> M B) :
  never_exits m -> (forall a, never_exits (k a)) -> never_exits (bind m k).
Proof.
  intros Hm Hk w c. unfold bind. specialize (Hm w).
  destruct (m w) as [[a|c'|] w1]; simpl in *.
  - apply Hk.
  - exfalso. exact (Hm c' eq_refl).
  - discriminate.
Qed.

Lemma never_exits_for_range (A : Type) (l : list A) (body : A -> M unit) :
  (forall x, never_exits (body x)) -> never_exits (for_range l body).
Proof.
  intro Hbody. induction l as [|x l IH]; simpl.
  - apply never_exits_ret.
  - apply never_exits_bind; [apply Hbody | intros _; exact IH].
Qed.

Lemma never_exits_call_hook (ev : Event) (h : HookResult) : never_exits (call_hook ev h).
Proof.
  intros w c. rewrite call_hook_run. destruct h; discriminate.
Qed.

Lemma never_exits_start_in_order (order : list ServiceWrapper) (sm : ServiceManager) :
  never_exits (start_in_order order sm).
Proof.
  revert sm. induction order as [|d order IH]; intro sm; simpl.
  - apply never_exits_ret.
  - apply never_exits_bind; [apply never_exits_call_hook | intros [took err]].
    simpl. destruct err; [apply never_exits_ret | apply IH].
Qed.

Lemma never_exits_StartAll (sm : ServiceManager) : never_exits (StartAll sm).
Proof.
  unfold StartAll. destruct (first_unknown_dependency _ _) as [[serviceID missingID]|].
  - apply never_exits_ret.
  - destruct (resolve_order _ _ _); [apply never_exits_start_in_order | apply never_exits_ret].
Qed.

Lemma never_exits_StopAll (deadline : Duration) (sm : ServiceManager) :
  never_exits (StopAll deadline sm).
Proof.
  intros w c H. destruct (StopAll_returns deadline sm w) as [r Hr]. congruence.
Qed.

Lemma never_exits_shutdown_with (env : Env) (d : Duration) (sm : ServiceManager) :
  never_exits (shutdown_with env d sm).
Proof.
  unfold shutdown_with, log_Info, log_Error, store_Close.
  repeat first
    [ apply never_exits_ret
    | apply never_exits_emit
    | apply never_exits_StopAll
    | apply never_exits_bind; [|intro]
    | match goal with
      | |- never_exits (match ?x with _ => _ end) => destruct x
      | |- never_exits (if ?x then _ else _) => destruct x
      end ].
Qed.

Lemma exits_early_of_never (q : Event -> bool) (A : Type) (m : M A) :
  never_exits m -> exits_early q m.
Proof. intros H w c Hexit. exfalso. exact (H w c Hexit). Qed.

Lemma exits_early_os_Exit (q : Event -> bool) (A : Type) : exits_early q (@os_Exit A 1).
Proof.
  intros w c Hexit. inversion Hexit. split; [reflexivity|].
  exists []. simpl. rewrite app_nil_r. split; reflexivity.
Qed.

Lemma exits_early_bind (q : Event -> bool) (A B : Type) (m : M A) (k : A -> M B) :
  emits q m -> never_exits m -> (forall a, exits_early q (k a)) -> exits_early q (bind m k).
Proof.
  intros Hemits Hnever Hk w c. unfold bind.
  destruct (Hemits w) as (evs1 & Ht1 & Hq1). specialize (Hnever w).
  destruct (m w) as [[a|c'|] w1]; simpl in *.
  - intro Hexit. destruct (Hk a w1 c Hexit) as (Hc & evs2 & Ht2 & Hq2).
    split; [exact Hc|]. exists (evs1 ++ evs2).
    rewrite Ht2, Ht1, app_assoc, forallb_app, Hq1, Hq2. split; reflexivity.
  - exfalso. exact (Hnever c' eq_refl).
  - discriminate.
Qed.

Lemma emits_start_hooks (q : Event -> bool) (order : list ServiceWrapper) (sm : ServiceManager) :
  (forall n, q (EvStartHook n) = true) ->
  (forall text, q (EvNotify text) = true) ->
  emits q (start_in_order order sm).
Proof.
  intros Hstart Hnotify. revert sm. induction order as [|d order IH]; intro sm; simpl.
  - apply emits_ret.
  - apply emits_bind.
    + unfold call_hook. apply emits_bind; [apply emits_emit, Hstart | intros _].
      destruct (startFunc d);
        (apply emits_bind;
         [apply emits_for_range; intro text; apply emits_emit, Hnotify | intros _]).
      * apply emits_ret.
      * apply emits_block_forever.
    + intros [took err]. simpl. destruct err; [apply emits_ret | apply IH].
Qed.

Lemma emits_StartAll_start_hooks (q : Event -> bool) (sm : ServiceManager) :
  (forall n, q (EvStartHook n) = true) ->
  (forall text, q (EvNotify text) = true) ->
  emits q (StartAll sm).
Proof.
  intros Hstart Hnotify. unfold StartAll.
  destruct (first_unknown_dependency _ _) as [[serviceID missingID]|].
  - apply emits_ret.
  - destruct (resolve_order _ _ _); [apply emits_start_hooks; assumption | apply emits_ret].
Qed.

Lemma reconcile_never_exits (env : Env) : never_exits (reconcile env).
Proof.
  intros w c. destruct (reconcile_run env w) as (evs & n & Hrun & _).
  rewrite Hrun. discriminate.
Qed.

Lemma reconcile_emits_no_shutdown_event (env : Env) :
  emits (fun e => negb (is_shutdown_event e)) (reconcile env).
Proof.
  intro w. destruct (reconcile_run env w) as (evs & n & Hrun & Hshape).
  exists evs. rewrite Hrun. split; [reflexivity|].
  destruct Hshape; try reflexivity.
  simpl. rewrite forallb_app. simpl. rewrite andb_true_r.
  apply forallb_forall. intros e He.
  pose proof (guilds_events_pass env (configured_guilds env) n0) as Hpass.
  rewrite Forall_forall in Hpass. specialize (Hpass e He).
  destruct e; try discriminate; reflexivity.
Qed.

(** Walks through [main] up to the points where the process ends. *)
Ltac never_walk :=
  repeat first
    [ apply never_exits_ret
    | apply never_exits_emit
    | apply never_exits_StartAll
    | apply never_exits_shutdown_with
    | apply never_exits_bind; [|intro]
    | match goal with
      | |- never_exits (match ?x with _ => _ end) => destruct x
      end ].

Ltac exits_walk :=
  repeat first
    [ apply exits_early_os_Exit
    | apply exits_early_of_never; solve [never_walk]
    | apply exits_early_bind;
      [ first [ apply emits_emit; reflexivity
              | apply emits_StartAll_start_hooks; reflexivity
              | solve [repeat first [ apply emits_ret
                                    | apply emits_emit; reflexivity
                                    | apply emits_bind; [|intro] ]] ]
      | solve [never_walk]
      | intro ]
    | match goal with
      | |- exits_early _ (match ?x with _ => _ end) => destruct x
      end ].

(** X11. Whenever [main] ends the process, the exit code is 1 and the
    deferred function has not run: until then [main] has not waited for the
    interrupt, has called no stop hook and has not closed the store, also
    when services were already started. *)
Theorem exit_skips_shutdown (env : Env) (w : World) (c : Z) :
  fst (main env w) = Exit c ->
  c = 1%Z /\ forallb (fun e => negb (is_shutdown_event e)) (emitted (main env) w) = true.
Proof.
  intro Hexit.
  assert (Hmain : exits_early (fun e => negb (is_shutdown_event e)) (main env)).
  { unfold main. apply exits_early_bind.
    - apply reconcile_emits_no_shutdown_event.
    - apply reconcile_never_exits.
    - intros _. unfold run_services, shutdown, log_Info, log_Error,
        logging_NewMonitoringService, commandHandler_SetupCommands.
      exits_walk. }
  destruct (Hmain w c Hexit) as (Hc & evs & Htrace & Hq).
  split; [exact Hc|]. rewrite (@emitted_spec _ _ _ _ Htrace). exact Hq.
Qed.

Lemma exit_skips_shutdown_witness :
  1%Z = 1%Z
  /\ forallb (fun e => negb (is_shutdown_event e)) (emitted (main env_commands_fail) w0) = true.
Proof.
  exact (@exit_skips_shutdown env_commands_fail w0 1%Z eq_refl).
Defined.
